(** * update_publications.py: publication list generator

    A shallow embedding of the script that fetches a publication list,
    renders it as HTML and LaTeX and splices both renderings between
    marker lines of two files, followed by the properties the
    specification states about it.

    Python strings are sequences of Unicode code points: a character is
    its code point, a string the list of its characters.  Values decoded
    from JSON are dynamically typed and modelled by [pyval]; operations
    that can raise return a [result]. *)

From Stdlib Require Import ZArith NArith List String Ascii Lia Bool.
From Stdlib Require Import Floats.SpecFloat.
From stdpp Require Import base option list strings gmap.
Import ListNotations.
Open Scope nat_scope.

Abbreviation char := N (only parsing).
Abbreviation text := (list N) (only parsing).

(** ** Python string operations used by the script *)

Module PyStr.

(** A string literal of the source (all of them are ASCII). *)
Definition str (s : string) : text :=
  List.map N_of_ascii (list_ascii_of_string s).

(** The newline character of ["\n"]. *)
Definition nl : N := 10%N.

(** [t.startswith(p)]: literal match of [p] at the head of [t]. *)
Fixpoint starts_with (p t : text) : bool :=
  match p, t with
  | [], _ => true
  | _ :: _, [] => false
  | a :: p', b :: t' => (a =? b)%N && starts_with p' t'
  end.

(** [sub in s] on strings: [sub] occurs somewhere in [s]. *)
Fixpoint contains (sub s : text) : bool :=
  starts_with sub s ||
  match s with
  | [] => false
  | _ :: s' => contains sub s'
  end.

(** [str.isspace] on one character: the white space of
    [_PyUnicode_IsWhitespace]. *)
Definition isspace (c : N) : bool :=
  ((9 <=? c) && (c <=? 13) || (28 <=? c) && (c <=? 32) ||
   (c =? 133) || (c =? 160) || (c =? 5760) ||
   (8192 <=? c) && (c <=? 8202) || (c =? 8232) || (c =? 8233) ||
   (c =? 8239) || (c =? 8287) || (c =? 12288))%N.

Fixpoint lstrip (s : text) : text :=
  match s with
  | [] => []
  | c :: s' => if isspace c then lstrip s' else s
  end.

Definition rstrip (s : text) : text := rev (lstrip (rev s)).

(** [s.strip()] without argument. *)
Definition strip (s : text) : text := rstrip (lstrip s).

(** [s.split(sep, maxsplit)] for a one-character separator, the only
    kind the script passes.  [maxsplit = None] is Python's default (no
    limit).  The result is never empty. *)
Fixpoint split (sep : N) (maxsplit : option nat) (s : text) : list text :=
  match s with
  | [] => [[]]
  | c :: s' =>
      if (c =? sep)%N && negb (bool_decide (maxsplit = Some 0))
      then [] :: split sep (pred <$> maxsplit) s'
      else match split sep maxsplit s' with
           | [] => [[c]]
           | p :: ps => (c :: p) :: ps
           end
  end.

(** [s.replace(old, new)] (every non-overlapping occurrence, left to
    right).  [skip] counts the characters of a matched [old] still to
    be passed over. *)
Fixpoint replace_from (old new : text) (skip : nat) (s : text) : text :=
  match s with
  | [] => []
  | c :: s' =>
      match skip with
      | S k => replace_from old new k s'
      | O => if starts_with old s
             then new ++ replace_from old new (length old - 1) s'
             else c :: replace_from old new 0 s'
      end
  end.

Definition replace (old new s : text) : text :=
  match old with
  | [] => new ++ flat_map (fun c => c :: new) s
  | _ :: _ => replace_from old new 0 s
  end.

(** [sep.join(items)]. *)
Fixpoint join (sep : text) (items : list text) : text :=
  match items with
  | [] => []
  | [x] => x
  | x :: rest => x ++ sep ++ join sep rest
  end.

(** Number of positions of [t] at which [p] occurs. *)
Fixpoint occurrences (p t : text) : nat :=
  (if starts_with p t then 1 else 0) +
  match t with
  | [] => 0
  | _ :: t' => occurrences p t'
  end.

End PyStr.
Import PyStr.

(** ** The regular expression of [replace_between_markers]

    The pattern is [re.escape(start) + ".*?" + re.escape(end)] compiled
    with [re.DOTALL]: the start marker literally, as few characters as
    possible (any character, newlines included), the end marker
    literally.  [sub] is [pattern.sub] with a constant replacement
    function and no [count]. *)

Module Re.
Section Pattern.
Variables start_marker end_marker : text.

(** The lazy [.*?] followed by the end marker: the least number of
    characters to pass over before the end marker matches.  [rej0]
    forbids passing over none when that would make the whole match
    empty. *)
Fixpoint lazy_end (rej0 : bool) (t : text) : option nat :=
  if starts_with end_marker t &&
     negb (rej0 && bool_decide (end_marker = []))
  then Some 0
  else match t with
       | [] => None
       | _ :: t' => S <$> lazy_end false t'
       end.

(** A match that starts at the head of [t]: its length.
    [must_advance] is the engine's flag of that name, set after an
    empty match: an empty match is then refused. *)
Definition match_at (must_advance : bool) (t : text) : option nat :=
  if starts_with start_marker t
  then (fun k => length start_marker + k + length end_marker) <$>
       lazy_end (must_advance && bool_decide (start_marker = []))
                (drop (length start_marker) t)
  else None.

(** The leftmost match in [t]: where it starts and how long it is.
    [must_advance] only concerns the first position tried. *)
Fixpoint search (must_advance : bool) (t : text) : option (nat * nat) :=
  match match_at must_advance t with
  | Some n => Some (0, n)
  | None =>
      match t with
      | [] => None
      | _ :: t' => (fun '(b, n) => (S b, n)) <$> search false t'
      end
  end.

(** The loop of [pattern.sub]: copy the text before the match, the
    replacement, and go on after the match.  Every round either
    consumes a character or sets [must_advance], so
    [2 * length t + 2] rounds are enough ([sub_loop_fuel]). *)
Fixpoint sub_loop (repl : text) (fuel : nat) (must_advance : bool)
    (t : text) : text :=
  match fuel with
  | O => t
  | S fuel' =>
      match search must_advance t with
      | None => t
      | Some (b, n) =>
          take b t ++ repl ++
          sub_loop repl fuel' (n =? 0) (drop (b + n) t)
      end
  end.

Definition sub_from (repl : text) (must_advance : bool) (t : text) : text :=
  sub_loop repl (2 * length t + 2) must_advance t.

Definition sub (repl : text) (t : text) : text := sub_from repl false t.

End Pattern.
End Re.

(** ** Marker splice *)

Definition replace_between_markers
    (text0 start_marker end_marker replacement : text) : text :=
  let repl := start_marker ++ [nl] ++ replacement ++ [nl] ++ end_marker in
  Re.sub start_marker end_marker repl text0.

(** ** Exceptions *)

Inductive exn : Set :=
| FileNotFoundError
| AttributeError
| TypeError
| IndexError
| KeyError.

Inductive result (A : Type) : Type :=
| Ok (a : A)
| Raise (e : exn).
Arguments Ok {A} a.
Arguments Raise {A} e.

#[global] Instance result_ret : MRet result := fun A a => Ok a.
#[global] Instance result_bind : MBind result := fun A B f m =>
  match m with
  | Ok a => f a
  | Raise e => Raise e
  end.

(** ** Files

    A file is the text that [f.read()] returns and [f.write()] stores;
    the store maps a path to the text of the file there.  Opening a
    path that is not in the store for reading raises; the second field
    is what [print] has written. *)

Record world : Type := World {
  files : gmap (list N) (list N);
  stdout : list (list N)
}.

Definition update_file (path start_marker end_marker new_content : text)
    (w : world) : result world :=
  match files w !! path with
  | None => Raise FileNotFoundError
  | Some text0 =>
      let updated :=
        replace_between_markers text0 start_marker end_marker new_content in
      Ok {| files := <[path := updated]> (files w);
            stdout := stdout w ++ [str "Updated " ++ path] |}
  end.

(** ** Values decoded from JSON *)

#[warnings="-register-all"]
Inductive pyval : Type :=
| PNone
| PBool (b : bool)
| PInt (z : Z)
| PFloat (f : spec_float)
| PStr (s : list N)
| PList (l : list pyval)
| PDict (d : list (list N * pyval)).

(** A dict decoded from JSON has string keys; the first binding of a key
    in the list is the dict's entry. *)
Fixpoint assoc (key : text) (d : list (list N * pyval)) : option pyval :=
  match d with
  | [] => None
  | (k, v) :: d' => if bool_decide (k = key) then Some v else assoc key d'
  end.

(** [o.get(key, dflt)]: only a dict has the method. *)
Definition py_get (o : pyval) (key : text) (dflt : pyval) : result pyval :=
  match o with
  | PDict d => Ok (default dflt (assoc key d))
  | _ => Raise AttributeError
  end.

(** [o[0]]: the first item of a list, the first character of a string;
    a dict decoded from JSON has no key [0]. *)
Definition py_item0 (o : pyval) : result pyval :=
  match o with
  | PList (x :: _) => Ok x
  | PList [] => Raise IndexError
  | PStr (c :: _) => Ok (PStr [c])
  | PStr [] => Raise IndexError
  | PDict _ => Raise KeyError
  | _ => Raise TypeError
  end.

(** [o[:n]]: lists and strings can be sliced, the other values raise
    (a dict raises [TypeError], or [KeyError] from Python 3.12 on; the
    model keeps the former). *)
Definition py_slice_to (n : nat) (o : pyval) : result pyval :=
  match o with
  | PStr s => Ok (PStr (take n s))
  | PList l => Ok (PList (take n l))
  | _ => Raise TypeError
  end.

(** Truth value of [o] in a condition. *)
Definition truthy (o : pyval) : bool :=
  match o with
  | PNone => false
  | PBool b => b
  | PInt z => negb (z =? 0)%Z
  | PFloat (S754_zero _) => false
  | PFloat _ => true
  | PStr s => negb (bool_decide (s = []))
  | PList l => negb (bool_decide (length l = 0))
  | PDict d => negb (bool_decide (length d = 0))
  end.

(** [s in o] for a string [s]. *)
Definition py_str_in (s : text) (o : pyval) : result bool :=
  match o with
  | PList l =>
      Ok (existsb (fun x => match x with
                            | PStr s' => bool_decide (s' = s)
                            | _ => false
                            end) l)
  | PStr s' => Ok (contains s s')
  | PDict d => Ok (bool_decide (is_Some (assoc s d)))
  | _ => Raise TypeError
  end.

(** The items a [for] loop over [o] visits. *)
Definition py_iter (o : pyval) : result (list pyval) :=
  match o with
  | PList l => Ok l
  | PStr s => Ok (List.map (fun c => PStr [c]) s)
  | PDict d => Ok (List.map (fun kv => PStr (fst kv)) d)
  | _ => Raise TypeError
  end.

(** ** Record Fetcher *)

Record paper : Type := Paper {
  title : pyval;
  authors : pyval;
  arxiv : pyval;
  journal : pyval;
  year : pyval;
  doi : pyval;
  inspire_id : pyval
}.

(** [meta.get(key, [{}])[0].get("value") if meta.get(key) else None] *)
Definition first_value (meta : pyval) (key : text) : result pyval :=
  c ← py_get meta key PNone;
  if truthy c
  then l ← py_get meta key (PList [PDict []]);
       x ← py_item0 l;
       py_get x (str "value") PNone
  else Ok PNone.

(** The body of the loop of [fetch_papers] for one hit: [None] when
    the hit is a thesis and is skipped. *)
Definition process_hit (hit : pyval) : result (option paper) :=
  meta ← py_get hit (str "metadata") (PDict []);
  doc_types ← py_get meta (str "document_type") (PList []);
  thesis ← py_str_in (str "thesis") doc_types;
  if (thesis : bool) then Ok None else
  titles ← py_get meta (str "titles") (PList [PDict []]);
  t0 ← py_item0 titles;
  title ← py_get t0 (str "title") (PStr (str "Untitled"));
  authors_raw ← py_get meta (str "authors") (PList []);
  arxiv ← first_value meta (str "arxiv_eprints");
  pc ← py_get meta (str "publication_info") PNone;
  pub_info ← (if truthy pc
              then l ← py_get meta (str "publication_info") (PList [PDict []]);
                   py_item0 l
              else Ok (PDict []));
  journal ← py_get pub_info (str "journal_title") PNone;
  year0 ← py_get pub_info (str "year") PNone;
  year ← (if truthy year0 then Ok year0
          else earliest ← py_get meta (str "earliest_date") (PStr []);
               if truthy earliest then py_slice_to 4 earliest
               else Ok (PStr []));
  doi ← first_value meta (str "dois");
  inspire_id ← py_get hit (str "id") PNone;
  Ok (Some {| title := title; authors := authors_raw; arxiv := arxiv;
              journal := journal; year := year; doi := doi;
              inspire_id := inspire_id |}).

Fixpoint process_hits (hits : list pyval) (papers : list paper)
    : result (list paper) :=
  match hits with
  | [] => Ok papers
  | hit :: hits' =>
      r ← process_hit hit;
      match r with
      | None => process_hits hits' papers
      | Some p => process_hits hits' (papers ++ [p])
      end
  end.

(** [fetch_papers] from the decoded body of the response on. *)
Definition fetch_papers (data : pyval) : result (list paper) :=
  h ← py_get data (str "hits") (PDict []);
  hs ← py_get h (str "hits") (PList []);
  hits ← py_iter hs;
  process_hits hits [].

(** ** Name Formatter *)

Definition MY_NAMES : gset (list N) :=
  {[ str "Berean-Dutcher, Jonah"; str "Berean-Dutcher, J.";
     str "Berean, Jonah"; str "Berean, J." ]}.

Definition comma : N := 44%N.

(** The two-name unpacking of [split(",", 1)] cannot fail under the
    test ["," in full_name] ([split_once]); the last branch is never
    taken. *)
Definition format_author_short (full_name : text) : text :=
  if contains [comma] full_name
  then match split comma (Some 1) full_name with
       | [last; first] =>
           let first := strip first in
           let initial := match first with
                          | [] => []
                          | c :: _ => [c]
                          end in
           initial ++ str ". " ++ strip last
       | _ => full_name
       end
  else full_name.

Definition is_me (full_name : text) : bool :=
  let name := strip full_name in
  if bool_decide (name ∈ MY_NAMES) then true
  else
    let last := if contains [comma] name
                then strip (hd [] (split comma None name))
                else name in
    contains (str "Berean") last.

(** ** Author list, HTML variant

    An author entry is a dict of string fields; only ["full_name"] is
    read. *)

Definition get_full_name (a : gmap (list N) (list N)) : text :=
  default [] (a !! str "full_name").

Definition me_html : text := str "<strong>J. Berean-Dutcher</strong>".

(** [l.insert(i, x)] *)
Definition list_insert_at {A} (i : nat) (x : A) (l : list A) : list A :=
  take i l ++ x :: drop i l.

(** One round of the first loop, on the pair [(coauthors, me_idx)]. *)
Definition scan_author (st : list (list N) * option nat)
    (ia : nat * gmap (list N) (list N)) : list (list N) * option nat :=
  let fn := get_full_name ia.2 in
  if is_me fn then (st.1, Some ia.1)
  else (st.1 ++ [format_author_short fn], st.2).

Definition enumerate {A} (l : list A) : list (nat * A) :=
  combine (seq 0 (length l)) l.

Definition author_list_html (authors : list (gmap (list N) (list N))) : text :=
  let st := fold_left scan_author (enumerate authors) ([], None) in
  let coauthors := st.1 in
  let me_idx := st.2 in
  if length coauthors <=? 2
  then
    let names :=
      fold_left (fun names a =>
                   let fn := get_full_name a in
                   if is_me fn then names ++ [me_html]
                   else names ++ [format_author_short fn])
                authors [] in
    if length names <=? 2 then join (str " & ") names
    else join (str ", ") (take (length names - 1) names) ++ str " & " ++
         List.last names []
  else
    let shown := take 2 coauthors in
    let shown := match me_idx with
                 | Some i => list_insert_at (min i 2) me_html shown
                 | None => list_insert_at 0 me_html shown
                 end in
    join (str ", ") shown ++ str " et al.".

(** ** Escaping *)

Definition escape_html (s : text) : text :=
  replace (str ">") (str "&gt;")
    (replace (str "<") (str "&lt;")
       (replace (str "&") (str "&amp;") s)).

(** The dict [special], in insertion order. *)
Definition special : list (list N * list N) :=
  [ (str "&", str "\&"); (str "%", str "\%"); (str "#", str "\#");
    (str "_", str "\_"); (str "~", str "\textasciitilde{}") ].

Definition escape_latex (s : text) : text :=
  fold_left (fun s kv => replace kv.1 kv.2 s) special s.

(** ** Links *)

Section Links.
(** Python's [str()], which an f-string applies to a field it
    interpolates; it is the identity on strings. *)
Variable py_str : pyval -> list N.

(** [None] stands for the pair [(None, None)]. *)
Definition paper_link (p : paper) : option (list N * list N) :=
  if truthy (arxiv p)
  then Some (str "https://arxiv.org/abs/" ++ py_str (arxiv p),
             str "arXiv:" ++ py_str (arxiv p))
  else if truthy (doi p)
  then Some (str "https://doi.org/" ++ py_str (doi p),
             str "doi:" ++ py_str (doi p))
  else if truthy (inspire_id p)
  then Some (str "https://inspirehep.net/literature/" ++ py_str (inspire_id p),
             str "INSPIRE")
  else None.
End Links.

(** ** Author list, LaTeX variant *)

Definition author_list_latex (authors : list (gmap (list N) (list N)))
    : option (list N) :=
  let coauthors :=
    fold_left (fun coauthors a =>
                 let fn := get_full_name a in
                 if is_me fn then coauthors
                 else coauthors ++
                      [replace (str " ") (str "~") (format_author_short fn)])
              authors [] in
  match coauthors with
  | [] => None
  | _ :: _ =>
      if length coauthors <=? 2 then Some (join (str " \& ") coauthors)
      else Some (join (str ", ") (take 2 coauthors) ++ str " et al.")
  end.

(** ** Markup Renderers

    The renderers get the records of [fetch_papers], whose fields are
    values decoded from JSON.  The two author functions loop over
    [p["authors"]], read [a.get("full_name", "")] of every item and call
    [is_me] on it, which strips it: the value must be iterable, every
    item a dict, every name a string.  [author_entries] is that reading;
    on the entries the author functions are as above. *)

Definition author_entry (a : pyval) : result (gmap (list N) (list N)) :=
  fn ← py_get a (str "full_name") (PStr []);
  match fn with
  | PStr s => Ok {[ str "full_name" := s ]}
  | _ => Raise AttributeError
  end.

Fixpoint author_entries_of (items : list pyval)
    : result (list (gmap (list N) (list N))) :=
  match items with
  | [] => Ok []
  | a :: items' =>
      e ← author_entry a;
      es ← author_entries_of items';
      Ok (e :: es)
  end.

Definition author_entries (authors : pyval)
    : result (list (gmap (list N) (list N))) :=
  items ← py_iter authors;
  author_entries_of items.

(** [escape_html(v)] and [escape_latex(v)] on a field: only a string
    has [replace]. *)
Definition py_escape_html (v : pyval) : result (list N) :=
  match v with
  | PStr s => Ok (escape_html s)
  | _ => Raise AttributeError
  end.

Definition py_escape_latex (v : pyval) : result (list N) :=
  match v with
  | PStr s => Ok (escape_latex s)
  | _ => Raise AttributeError
  end.

(** The double quote, and an attribute value between double quotes. *)
Definition dq : N := 34%N.
Definition quoted (s : list N) : list N := [dq] ++ s ++ [dq].

(** ** Steps of the script

    A step of the script changes the files, prints, and returns or
    raises; what it has done before it raises stays done. *)

Definition prog (A : Type) : Type := world -> world * result A.

#[global] Instance prog_ret : MRet prog := fun A a w => (w, Ok a).
#[global] Instance prog_bind : MBind prog := fun A B f m w =>
  match m w with
  | (w', Ok a) => f a w'
  | (w', Raise e) => (w', Raise e)
  end.

Definition print (line : list N) : prog unit :=
  fun w => ({| files := files w; stdout := stdout w ++ [line] |}, Ok tt).

(** A computation that touches nothing. *)
Definition compute {A} (r : result A) : prog A := fun w => (w, r).

(** The call of [update_file]; it raises before it writes. *)
Definition call_update_file (path start_marker end_marker content : list N)
    : prog unit :=
  fun w =>
    match update_file path start_marker end_marker content w with
    | Ok w' => (w', Ok tt)
    | Raise e => (w, Raise e)
    end.

Section Render.
Variable py_str : pyval -> list N.

(** The body of the loop of [generate_html]: the lines one record
    appends to [lines].  The url of a link is never empty, so [if url]
    asks whether there is a link. *)
Definition html_card (lines : list (list N)) (p : paper)
    : result (list (list N)) :=
  let link := paper_link py_str p in
  title_escaped ← py_escape_html (title p);
  entries ← author_entries (authors p);
  let authors_html := author_list_html entries in
  let lines := lines ++ [str "        <div class=" ++ quoted (str "card") ++ str ">"] in
  let lines := lines ++ [str "          <h3>" ++ title_escaped ++ str "</h3>"] in
  let lines :=
    match link with
    | Some (url, link_text) =>
        lines ++ [str "          <p><em><a href=" ++ quoted url ++
                  str " target=" ++ quoted (str "_blank") ++
                  str " rel=" ++ quoted (str "noreferrer") ++ str ">" ++
                  escape_html link_text ++ str "</a></em></p>"]
    | None => lines
    end in
  let lines := lines ++ [str "          <p class=" ++ quoted (str "subtle") ++
                         str ">" ++ authors_html ++ str "</p>"] in
  Ok (lines ++ [str "        </div>"]).

Fixpoint html_cards (papers : list paper) (lines : list (list N))
    : result (list (list N)) :=
  match papers with
  | [] => Ok lines
  | p :: papers' =>
      lines' ← html_card lines p;
      html_cards papers' lines'
  end.

Definition generate_html (papers : list paper) : result (list N) :=
  lines ← html_cards papers
            [str "      <div class=" ++ quoted (str "grid") ++ str ">"];
  Ok (join [nl] (lines ++ [str "      </div>"])).

(** The body of the loop of [generate_latex]: the item of one record. *)
Definition latex_item (p : paper) : result (list N) :=
  let link := paper_link py_str p in
  title_tex ← py_escape_latex (title p);
  entries ← author_entries (authors p);
  let coauthors := author_list_latex entries in
  let with_part :=
    match coauthors with
    | Some (c :: cs) => str " \with{" ++ (c :: cs) ++ str "}"
    | _ => []
    end in
  let item :=
    match link with
    | Some (url, _) =>
        str "\item \href{" ++ url ++ str "}{\textcolor{DodgerBlue4}{" ++
        title_tex ++ str "}}" ++ with_part
    | None => str "\item " ++ title_tex ++ with_part
    end in
  if truthy (journal p)
  then j ← py_escape_latex (journal p);
       Ok (item ++ str " \sep \textit{" ++ j ++ str "} \sep " ++
           py_str (year p))
  else if truthy (year p)
  then Ok (item ++ str " \sep Preprint \sep " ++ py_str (year p))
  else Ok item.

Fixpoint latex_items (papers : list paper) (lines : list (list N))
    : result (list (list N)) :=
  match papers with
  | [] => Ok lines
  | p :: papers' =>
      item ← latex_item p;
      latex_items papers' (lines ++ [item])
  end.

Definition generate_latex (papers : list paper) : result (list N) :=
  lines ← latex_items papers [str "\begin{itemize}"];
  Ok (join [nl] (lines ++ [str "\end{itemize}"])).

(** ** Compiler Invoker and Orchestrator *)

(** [subprocess.run] of the compiler in the [cv] directory, its output
    captured: what it does to the files, and its exit status with its
    decoded output, or the exception when it cannot be started. *)
Variable run_pdflatex :
  gmap (list N) (list N) ->
  gmap (list N) (list N) * result (Z * list N).

Definition call_pdflatex : prog (Z * list N) :=
  fun w =>
    let fr := run_pdflatex (files w) in
    ({| files := fr.1; stdout := stdout w |}, fr.2).

Fixpoint print_all (lines : list (list N)) : prog unit :=
  match lines with
  | [] => mret tt
  | l :: lines' => print l;; print_all lines'
  end.

(** One round of the loop of [compile_cv], [i] being 0 or 1. *)
Definition compile_pass (i : nat) : prog unit :=
  r ← call_pdflatex;
  if bool_decide (r.1 = 0%Z) then mret tt
  else
    print (str "pdflatex pass " ++ py_str (PInt (Z.of_nat (i + 1))) ++
           str " warnings/errors (may be non-fatal):");;
    let log_lines := split nl None (strip r.2) in
    print_all (List.map (fun line => str "  " ++ line)
                 (drop (length log_lines - 20) log_lines)).

Definition compile_cv : prog unit :=
  compile_pass 0;;
  compile_pass 1;;
  print (str "CV compiled.").

(** The paths of the two files, fixed by where the script lies. *)
Variables INDEX_HTML CV_TEX : list N.

(** [main] from the decoded body of the response on. *)
Definition main (data : pyval) : prog unit :=
  print (str "Fetching publications from INSPIRE-HEP...");;
  papers ← compute (fetch_papers data);
  print (str "Found " ++ py_str (PInt (Z.of_nat (length papers))) ++
         str " papers (excluding theses).");;
  match papers with
  | [] => print (str "No papers found. Aborting.")
  | _ :: _ =>
      html_content ← compute (generate_html papers);
      latex_content ← compute (generate_latex papers);
      call_update_file INDEX_HTML (str "<!-- PUBLICATIONS-START -->")
        (str "<!-- PUBLICATIONS-END -->") html_content;;
      call_update_file CV_TEX (str "% PUBLICATIONS-START")
        (str "% PUBLICATIONS-END") latex_content;;
      print (str "Compiling CV PDF...");;
      compile_cv;;
      print (str "Done.")
  end.

End Render.

(** ** Vocabulary of the specification *)

(** [t.find(p)]: the first position at which [p] occurs in [t]. *)
Fixpoint find (p t : list N) : option nat :=
  if starts_with p t then Some 0
  else match t with
       | [] => None
       | _ :: t' => S <$> find p t'
       end.

(** [t] contains a span from the start marker [s] to the end marker
    [e]: an occurrence of [s] with an occurrence of [e] after it. *)
Fixpoint span_in (s e t : list N) : bool :=
  starts_with s t && contains e (drop (length s) t) ||
  match t with
  | [] => false
  | _ :: t' => span_in s e t'
  end.

(** The splice as the specification words it: only the first span is
    replaced, the text after it is kept as it is. *)
Definition replace_first_between_markers
    (text0 start_marker end_marker replacement : list N) : list N :=
  match find start_marker text0 with
  | None => text0
  | Some b =>
      match find end_marker (drop (b + length start_marker) text0) with
      | None => text0
      | Some k =>
          take b text0 ++
          start_marker ++ [nl] ++ replacement ++ [nl] ++ end_marker ++
          drop (b + length start_marker + k + length end_marker) text0
      end
  end.

(** [p] occurs in [t] at position [i] and nowhere else. *)
Definition only_at (p t : list N) (i : nat) : Prop :=
  starts_with p (drop i t) = true /\
  forall j, starts_with p (drop j t) = true -> j = i.

(** A marker that is not empty and holds no newline, as the two marker
    pairs of [main] are. *)
Definition marker_ok (m : list N) : bool :=
  negb (bool_decide (m = [])) && negb (contains [nl] m).

(** What escaping does to one character. *)
Definition html_entity (c : N) : list N :=
  if (c =? 38)%N then str "&amp;"
  else if (c =? 60)%N then str "&lt;"
  else if (c =? 62)%N then str "&gt;"
  else [c].

Definition latex_escaped (c : N) : list N :=
  if (c =? 38)%N then str "\&"
  else if (c =? 37)%N then str "\%"
  else if (c =? 35)%N then str "\#"
  else if (c =? 95)%N then str "\_"
  else if (c =? 126)%N then str "\textasciitilde{}"
  else [c].

(** The text of [s] before its first [c]; all of [s] when it has none. *)
Fixpoint before_first (c : N) (s : list N) : list N :=
  match s with
  | [] => []
  | x :: s' => if (x =? c)%N then [] else x :: before_first c s'
  end.

(** The non-owner authors in short form, in order. *)
Definition coauthors_of (authors : list (gmap (list N) (list N)))
    : list (list N) :=
  List.map format_author_short
    (List.filter (fun fn => negb (is_me fn)) (List.map get_full_name authors)).

(** The position of the last author entry that names the owner. *)
Fixpoint owner_index (names : list (list N)) : option nat :=
  match names with
  | [] => None
  | fn :: rest =>
      match owner_index rest with
      | Some i => Some (S i)
      | None => if is_me fn then Some 0 else None
      end
  end.

(** The parts of a hit that decide the year of its record: the
    metadata, the [year] entry of the first [publication_info] item
    ([None] when there is none), and [earliest_date] (the empty string
    when it is missing). *)
Definition hit_meta (hit : pyval) : pyval :=
  match hit with
  | PDict d => default (PDict []) (assoc (str "metadata") d)
  | _ => PNone
  end.

Definition explicit_year (meta : pyval) : pyval :=
  match meta with
  | PDict m =>
      match assoc (str "publication_info") m with
      | Some (PList (PDict info :: _)) => default PNone (assoc (str "year") info)
      | _ => PNone
      end
  | _ => PNone
  end.

Definition earliest_date (meta : pyval) : pyval :=
  match meta with
  | PDict m => default (PStr []) (assoc (str "earliest_date") m)
  | _ => PStr []
  end.

(** The year of the record made from a hit, when one is made. *)
Definition year_of_hit (hit : pyval) : option pyval :=
  match process_hit hit with
  | Ok (Some p) => Some (year p)
  | _ => None
  end.

(** How [author_list_html] shows one author entry. *)
Definition display_name (a : gmap (list N) (list N)) : list N :=
  if is_me (get_full_name a) then me_html
  else format_author_short (get_full_name a).

(** A name with its spaces turned into ties, as LaTeX gets it. *)
Definition tilde (name : list N) : list N :=
  replace (str " ") (str "~") name.

(** The hits that the loop of [fetch_papers] visits. *)
Definition response_hits (data : pyval) : result (list pyval) :=
  h ← py_get data (str "hits") (PDict []);
  hs ← py_get h (str "hits") (PList []);
  py_iter hs.

Definition is_str (v : pyval) : bool :=
  match v with
  | PStr _ => true
  | _ => false
  end.

(** An author entry the renderers can read: a dict whose [full_name],
    when it has one, is a string. *)
Definition entry_ok (a : pyval) : bool :=
  match a with
  | PDict d =>
      match assoc (str "full_name") d with
      | None => true
      | Some v => is_str v
      end
  | _ => false
  end.

(** A record both renderers accept: a string title, a list of readable
    author entries, and a journal that is a string or false in a
    condition. *)
Definition renderable (p : paper) : bool :=
  is_str (title p) &&
  match authors p with
  | PList l => forallb entry_ok l
  | _ => false
  end &&
  (is_str (journal p) || negb (truthy (journal p))).

(** A stand-in for [str()] in examples: right on strings. *)
Definition show_field (v : pyval) : list N :=
  match v with
  | PStr s => s
  | _ => []
  end.

(** * Properties *)

(** ** The model on examples of the source and of the specification *)

Example format_author_short_example :
  format_author_short (str "Last, First M.") = str "F. Last" /\
  format_author_short (str "Collaboration") = str "Collaboration".
Proof. split; vm_compute; reflexivity. Qed.

Example is_me_examples :
  is_me (str " Berean-Dutcher, J. ") = true /\
  is_me (str "Bereanson, Kim") = true /\
  is_me (str "Smith, Berean") = false.
Proof. split_and!; vm_compute; reflexivity. Qed.

Example author_list_html_two_authors :
  author_list_html [ {[ str "full_name" := str "Alpha, Ann" ]};
                     {[ str "full_name" := str "Berean-Dutcher, Jonah" ]} ]
  = str "A. Alpha & <strong>J. Berean-Dutcher</strong>".
Proof. vm_compute. reflexivity. Qed.

Example escape_examples :
  escape_html (str "a<b>&c") = str "a&lt;b&gt;&amp;c" /\
  escape_latex (str "50% of $x_1$ & more") = str "50\% of $x\_1$ \& more".
Proof. split; vm_compute; reflexivity. Qed.

(** [re.sub] with both markers empty: an empty match at every position
    and, between them, every character as a match of its own. *)
Example sub_empty_markers :
  Re.sub [] [] (str "-") (str "ab") = str "-----".
Proof. vm_compute. reflexivity. Qed.

Example thesis_is_skipped :
  process_hit
    (PDict [(str "metadata",
             PDict [(str "document_type",
                     PList [PStr (str "article"); PStr (str "thesis")])])])
  = Ok None.
Proof. vm_compute. reflexivity. Qed.

(** ** Strings *)

Lemma starts_with_prefix (p t : list N) :
  starts_with p t = true <-> p `prefix_of` t.
Proof.
  revert t. induction p as [|a p IH]; intros t; simpl.
  - split; [intros _; apply prefix_nil | done].
  - destruct t as [|b t]; simpl.
    + split; [done | intros H; by apply prefix_nil_inv in H].
    + rewrite andb_true_iff, N.eqb_eq, IH. split.
      * intros [-> H]. by apply prefix_cons.
      * intros H. split; [by apply prefix_cons_inv_1 in H | by apply prefix_cons_inv_2 in H].
Qed.

Lemma starts_with_app (p r : list N) : starts_with p (p ++ r) = true.
Proof. apply starts_with_prefix. by exists r. Qed.

Lemma starts_with_lookup (p t : list N) :
  starts_with p t = true <-> forall k, k < length p -> t !! k = p !! k.
Proof.
  revert t. induction p as [|a p IH]; intros t; simpl.
  - split; [intros _ k Hk; lia | done].
  - destruct t as [|b t]; simpl.
    + split; [done | intros H; specialize (H 0 ltac:(lia)); done].
    + rewrite andb_true_iff, N.eqb_eq, IH. split.
      * intros [-> H] [|k] Hk; simpl; [done | apply H; lia].
      * intros H. split.
        -- specialize (H 0 ltac:(lia)). simpl in H. congruence.
        -- intros k Hk. apply (H (S k)). lia.
Qed.

(** [p] occurs in [t] at position [i]. *)
Lemma occurs_lookup (p t : list N) (i : nat) :
  starts_with p (drop i t) = true <->
  forall k, k < length p -> t !! (i + k) = p !! k.
Proof.
  rewrite starts_with_lookup. split; intros H k Hk.
  - rewrite <- lookup_drop. by apply H.
  - rewrite lookup_drop. by apply H.
Qed.

Lemma occurs_bound (p t : list N) (i : nat) :
  p <> [] -> starts_with p (drop i t) = true -> i + length p <= length t.
Proof.
  intros Hp H. rewrite occurs_lookup in H.
  destruct p as [|a p]; [done|]. clear Hp.
  specialize (H (length p) ltac:(simpl; lia)).
  assert (is_Some ((a :: p) !! length p)) as [x Hx]
    by (apply lookup_lt_is_Some; simpl; lia).
  rewrite Hx in H. apply lookup_lt_Some in H. simpl. lia.
Qed.

Lemma contains_occurs (p t : list N) :
  contains p t = true <-> exists i, starts_with p (drop i t) = true.
Proof.
  induction t as [|c t IH]; simpl.
  - rewrite orb_false_r. split; [intros H; by exists 0 |].
    intros [i H]. by rewrite drop_nil in H.
  - rewrite orb_true_iff, IH. split.
    + intros [H | [i H]]; [by exists 0 | by exists (S i)].
    + intros [[|i] H]; [by left | right; by exists i].
Qed.

Lemma contains_false_occurs (p t : list N) (i : nat) :
  contains p t = false -> starts_with p (drop i t) = false.
Proof.
  intros H. destruct (starts_with p (drop i t)) eqn:E; [|done].
  assert (contains p t = true) by (apply contains_occurs; eauto). congruence.
Qed.

Lemma contains_split (p t : list N) :
  contains p t = true <-> exists pre suf, t = pre ++ p ++ suf.
Proof.
  rewrite contains_occurs. split.
  - intros [i H]. apply starts_with_prefix in H as [suf H].
    exists (take i t), suf. by rewrite <- H, take_drop.
  - intros (pre & suf & ->). exists (length pre).
    rewrite drop_app_length. apply starts_with_app.
Qed.

(** ** Finding markers *)

Lemma find_Some (p t : list N) (i : nat) :
  find p t = Some i <->
  starts_with p (drop i t) = true /\
  i <= length t /\
  forall j, j < i -> starts_with p (drop j t) = false.
Proof.
  revert i. induction t as [|c t IH]; intros i; simpl.
  - destruct (starts_with p []) eqn:E.
    + split.
      * intros [= <-]. split_and!; [done | done | intros; lia].
      * intros (_ & Hi & _). f_equal. simpl in Hi. lia.
    + split; [done|]. intros (H & _). rewrite drop_nil in H. congruence.
  - destruct (starts_with p (c :: t)) eqn:E.
    + split.
      * intros [= <-]. split_and!; [done | lia | intros; lia].
      * intros (_ & _ & H). destruct i as [|i]; [done|].
        specialize (H 0 ltac:(lia)). simpl in H. congruence.
    + destruct (find p t) as [i'|]; simpl.
      * split.
        -- intros [= <-]. destruct (proj1 (IH i') eq_refl) as (H1 & H2 & H3).
           split_and!; [done | lia |].
           intros [|j] Hj; [done | apply H3; lia].
        -- intros (H1 & H2 & H3). destruct i as [|i]; [simpl in H1; congruence|].
           assert (Some i' = Some i) as [= ->]; [|done].
           apply IH. split_and!; [done | simpl in H2; lia |].
           intros j Hj. apply (H3 (S j)). lia.
      * split; [done|]. intros (H1 & H2 & H3).
        destruct i as [|i]; [simpl in H1; congruence|].
        assert (None = Some i) by (apply IH; split_and!;
          [done | simpl in H2; lia | intros j Hj; apply (H3 (S j)); lia]).
        done.
Qed.

Lemma find_None (p t : list N) :
  find p t = None <-> contains p t = false.
Proof.
  induction t as [|c t IH]; simpl.
  - destruct (starts_with p []); simpl; split; done.
  - destruct (starts_with p (c :: t)); simpl; [split; done|].
    rewrite <- IH. destruct (find p t); simpl; split; done.
Qed.

Lemma find_first (p t : list N) (i : nat) :
  starts_with p (drop i t) = true ->
  exists b, find p t = Some b /\ b <= i.
Proof.
  intros H. destruct (find p t) as [b|] eqn:Hf.
  - exists b. split; [done|]. apply find_Some in Hf as (H1 & H2 & H3).
    destruct (decide (b <= i)); [done|]. rewrite H3 in H by lia. done.
  - apply find_None in Hf. by rewrite contains_false_occurs in H.
Qed.


Lemma span_in_occurs (s e t : list N) :
  span_in s e t = true <->
  exists i j, starts_with s (drop i t) = true /\
              starts_with e (drop j (drop (i + length s) t)) = true.
Proof.
  induction t as [|c t IH].
  - simpl. rewrite orb_false_r, andb_true_iff, contains_occurs. split.
    + intros (H1 & j & H2). exists 0, j. done.
    + intros (i & j & H1 & H2). rewrite !drop_nil in *. split; [done|].
      exists 0. rewrite drop_nil in *. done.
  - cbn [span_in]. rewrite orb_true_iff, andb_true_iff, contains_occurs, IH. split.
    + intros [(H1 & j & H2) | (i & j & H1 & H2)].
      * by exists 0, j.
      * by exists (S i), j.
    + intros ([|i] & j & H1 & H2).
      * left. split; [done|]. by exists j.
      * right. by exists i, j.
Qed.

(** A span, as the specification describes it. *)
Lemma span_in_spec (s e t : list N) :
  span_in s e t = true <->
  exists pre mid rest, t = pre ++ s ++ mid ++ e ++ rest.
Proof.
  rewrite span_in_occurs. split.
  - intros (i & j & H1 & H2).
    apply starts_with_prefix in H1 as [r1 H1].
    apply starts_with_prefix in H2 as [r2 H2].
    exists (take i t), (take j r1), r2.
    rewrite <- (take_drop i t) at 1. f_equal. rewrite H1. f_equal.
    rewrite <- drop_drop, H1, drop_app_length in H2.
    by rewrite <- H2, take_drop.
  - intros (pre & mid & rest & ->). exists (length pre), (length mid).
    split_and!.
    + rewrite drop_app_length. apply starts_with_app.
    + rewrite <- drop_drop, drop_app_length, drop_app_length, drop_app_length.
      apply starts_with_app.
Qed.

(** ** The regular expression engine *)

Section ReFacts.
Variables s e : list N.

Lemma lazy_end_sound (rej0 : bool) (t : list N) (k : nat) :
  Re.lazy_end e rej0 t = Some k ->
  k <= length t /\ starts_with e (drop k t) = true /\
  (rej0 = true -> e = [] -> k <> 0) /\
  (forall j, j < k -> e <> [] -> starts_with e (drop j t) = false).
Proof.
  revert rej0 k. induction t as [|c t IH]; intros rej0 k; simpl.
  - destruct (starts_with e [] && _) eqn:E; [|done].
    intros [= <-]. apply andb_true_iff in E as [E1 E2].
    split_and!; [done | done | | intros; lia].
    intros -> ->. by rewrite bool_decide_eq_true_2 in E2.
  - destruct (starts_with e (c :: t) && _) eqn:E.
    + intros [= <-]. apply andb_true_iff in E as [E1 E2].
      split_and!; [lia | done | | intros; lia].
      intros -> ->. by rewrite bool_decide_eq_true_2 in E2.
    + destruct (Re.lazy_end e false t) as [k'|] eqn:Hk; [|done].
      intros [= <-]. destruct (IH _ _ Hk) as (H1 & H2 & _ & H4).
      split_and!; [lia | done | done |].
      intros [|j] Hj He; simpl.
      * apply andb_false_iff in E as [E | E]; [done|].
        apply negb_false_iff, andb_true_iff in E as [_ E].
        by apply bool_decide_eq_true in E.
      * apply H4; [lia | done].
Qed.

Lemma lazy_end_complete (rej0 : bool) (t : list N) (k : nat) :
  e <> [] ->
  starts_with e (drop k t) = true ->
  (forall j, j < k -> starts_with e (drop j t) = false) ->
  Re.lazy_end e rej0 t = Some k.
Proof.
  intros He. revert rej0 k. induction t as [|c t IH]; intros rej0 k; simpl.
  - rewrite drop_nil. intros H _. destruct e; done.
  - intros Hk Hmin. rewrite bool_decide_eq_false_2, andb_false_r, andb_true_r by done.
    destruct k as [|k]; simpl in Hk.
    + by rewrite Hk.
    + pose proof (Hmin 0 ltac:(lia)) as H0. simpl in H0. rewrite H0.
      rewrite (IH false k); [done | done |].
      intros j Hj. apply (Hmin (S j)). lia.
Qed.

Lemma lazy_end_none (rej0 : bool) (t : list N) :
  (forall j, starts_with e (drop j t) = false) ->
  Re.lazy_end e rej0 t = None.
Proof.
  revert rej0. induction t as [|c t IH]; intros rej0 H; simpl.
  - pose proof (H 0) as H0. simpl in H0. by rewrite H0.
  - pose proof (H 0) as H0. simpl in H0. rewrite H0. simpl.
    rewrite IH; [done|].
    intros j. apply (H (S j)).
Qed.

Lemma lazy_end_find (t : list N) : Re.lazy_end e false t = find e t.
Proof.
  induction t as [|c t IH]; simpl.
  - by rewrite andb_true_r.
  - by rewrite andb_true_r, IH.
Qed.

Lemma lazy_end_rej0 (rej0 : bool) (t : list N) :
  e <> [] -> Re.lazy_end e rej0 t = Re.lazy_end e false t.
Proof.
  intros He. destruct t; simpl;
    by rewrite bool_decide_eq_false_2, !andb_false_r by done.
Qed.

(** What a match at the head of [t] looks like. *)
Lemma match_at_sound (adv : bool) (t : list N) (n : nat) :
  Re.match_at s e adv t = Some n ->
  exists mid, t = s ++ mid ++ e ++ drop n t /\
              n = length s + length mid + length e /\
              (adv = true -> n <> 0) /\
              (forall j, j < length mid -> e <> [] ->
                 starts_with e (drop j (mid ++ e ++ drop n t)) = false).
Proof.
  unfold Re.match_at. destruct (starts_with s t) eqn:Hs; [|done].
  apply starts_with_prefix in Hs as [r ->].
  rewrite drop_app_length.
  destruct (Re.lazy_end e _ r) as [k|] eqn:Hk; [|done].
  simpl. intros [= <-].
  apply lazy_end_sound in Hk as (H1 & H2 & H3 & H4).
  apply starts_with_prefix in H2 as [r' Hr'].
  exists (take k r).
  assert (Hlen : length (take k r) = k) by (rewrite length_take; lia).
  assert (Hdrop : drop (length s + k + length e) (s ++ r) = r').
  { rewrite <- Nat.add_assoc, <- drop_drop, drop_app_length.
    rewrite <- drop_drop, Hr'. apply drop_app_length. }
  rewrite Hdrop, Hlen. split_and!.
  - by rewrite <- Hr', take_drop.
  - done.
  - intros -> Hn.
    assert (length s = 0 /\ k = 0 /\ length e = 0) as (Hs0 & Hk0 & He0) by lia.
    apply nil_length_inv in Hs0, He0. subst s e.
    apply H3; [|done..]. by rewrite bool_decide_eq_true_2.
  - intros j Hj He. rewrite <- Hr', take_drop. apply H4; [lia | done].
Qed.

Lemma search_sound (adv : bool) (t : list N) (b n : nat) :
  Re.search s e adv t = Some (b, n) ->
  b + n <= length t /\
  (n = 0 -> b = 0 -> adv = false) /\
  starts_with s (drop b t) = true /\
  exists mid, drop b t = s ++ mid ++ e ++ drop (b + n) t /\
              n = length s + length mid + length e /\
              (forall j, j < length mid -> e <> [] ->
                 starts_with e (drop j (mid ++ e ++ drop (b + n) t)) = false).
Proof.
  revert adv b n. induction t as [|c t IH]; intros adv b n; simpl.
  - destruct (Re.match_at s e adv []) as [n'|] eqn:Hm; [|done].
    intros [= <- <-]. apply match_at_sound in Hm as (mid & H1 & H2 & H3 & H4).
    split_and!.
    + apply (f_equal length) in H1. rewrite !length_app in H1. simpl in *. lia.
    + intros -> _. destruct adv; [|done]. by destruct H3.
    + rewrite H1. apply starts_with_app.
    + exists mid. simpl. by rewrite drop_nil in *.
  - destruct (Re.match_at s e adv (c :: t)) as [n'|] eqn:Hm.
    + intros [= <- <-]. apply match_at_sound in Hm as (mid & H1 & H2 & H3 & H4).
      split_and!.
      * apply (f_equal length) in H1. rewrite !length_app in H1. simpl in *. lia.
      * intros -> _. destruct adv; [|done]. by destruct H3.
      * rewrite H1. apply starts_with_app.
      * exists mid. simpl. split_and!; done.
    + destruct (Re.search s e false t) as [[b' n']|] eqn:Hs'; [|done].
      simpl. intros [= <- <-].
      destruct (IH _ _ _ Hs') as (H1 & H2 & H3 & H4).
      split_and!; [lia | lia | done | done].
Qed.

Lemma search_cons (adv : bool) (c : N) (t : list N) :
  Re.search s e adv (c :: t) =
  match Re.match_at s e adv (c :: t) with
  | Some n => Some (0, n)
  | None => (fun '(b, n) => (S b, n)) <$> Re.search s e false t
  end.
Proof. reflexivity. Qed.

Lemma match_at_find (adv : bool) (t : list N) (k : nat) :
  s <> [] \/ e <> [] ->
  starts_with s t = true ->
  find e (drop (length s) t) = Some k ->
  Re.match_at s e adv t = Some (length s + k + length e).
Proof.
  intros Hse Hs Hk. unfold Re.match_at. rewrite Hs.
  destruct (decide (e = [])) as [He | He].
  - destruct Hse as [Hs' | ?]; [|done].
    rewrite bool_decide_eq_false_2, andb_false_r by done.
    by rewrite lazy_end_find, Hk.
  - by rewrite lazy_end_rej0, lazy_end_find, Hk.
Qed.

(** The leftmost match starts at the first occurrence of the start
    marker and ends with the first end marker after that occurrence,
    when there is one. *)
Lemma search_first (adv : bool) (t : list N) (b k : nat) :
  s <> [] \/ e <> [] ->
  find s t = Some b ->
  find e (drop (b + length s) t) = Some k ->
  Re.search s e adv t = Some (b, length s + k + length e).
Proof.
  intros Hse Hb. apply find_Some in Hb as (Hb & Hle & Hpre).
  revert adv b Hb Hle Hpre. induction t as [|c t IH]; intros adv b Hb Hle Hpre Hk.
  - assert (b = 0) as -> by (simpl in Hle; lia).
    simpl. by rewrite (match_at_find adv [] k).
  - rewrite search_cons. destruct b as [|b].
    + by rewrite (match_at_find adv (c :: t) k).
    + unfold Re.match_at.
      pose proof (Hpre 0 ltac:(lia)) as H0. simpl in H0. rewrite H0.
      rewrite (IH false b); [done | done | simpl in Hle; lia | | done].
      intros i Hi. apply (Hpre (S i)). lia.
Qed.

Lemma search_none (adv : bool) (t : list N) :
  (forall i j, starts_with s (drop i t) = true ->
               starts_with e (drop j (drop (i + length s) t)) = false) ->
  Re.search s e adv t = None.
Proof.
  revert adv. induction t as [|c t IH]; intros adv H.
  - simpl. unfold Re.match_at. destruct (starts_with s []) eqn:E; [|done].
    rewrite lazy_end_none; [done|]. intros j.
    specialize (H 0 j E). by rewrite !drop_nil in *.
  - rewrite search_cons. unfold Re.match_at.
    rewrite IH by (intros i j Hi; apply (H (S i) j Hi)).
    destruct (starts_with s (c :: t)) eqn:E; [|done].
    rewrite lazy_end_none; [done|]. intros j. apply (H 0 j E).
Qed.

(** *** The loop of [sub] *)

Lemma sub_loop_fuel (repl : list N) (f1 f2 : nat) (adv : bool) (t : list N) :
  2 * length t + (if adv then 0 else 1) < f1 ->
  2 * length t + (if adv then 0 else 1) < f2 ->
  Re.sub_loop s e repl f1 adv t = Re.sub_loop s e repl f2 adv t.
Proof.
  revert f2 adv t. induction f1 as [|f1 IH]; intros f2 adv t H1 H2; [lia|].
  destruct f2 as [|f2]; [lia|]. simpl.
  destruct (Re.search s e adv t) as [[b n]|] eqn:Hs; [|done].
  apply search_sound in Hs as (Hb & Hn & _).
  do 2 f_equal. 
  assert (length (drop (b + n) t) = length t - (b + n)) as Hl
    by apply length_drop.
  destruct (Nat.eqb_spec n 0) as [-> | Hn0].
  - destruct b as [|b].
    + rewrite (Hn eq_refl eq_refl) in *. apply IH; lia.
    + apply IH; lia.
  - apply IH; lia.
Qed.

Lemma sub_from_unfold (repl : list N) (adv : bool) (t : list N) :
  Re.sub_from s e repl adv t =
  match Re.search s e adv t with
  | None => t
  | Some (b, n) =>
      take b t ++ repl ++ Re.sub_from s e repl (n =? 0) (drop (b + n) t)
  end.
Proof.
  unfold Re.sub_from at 1.
  replace (2 * length t + 2) with (S (2 * length t + 1)) by lia.
  cbn [Re.sub_loop].
  destruct (Re.search s e adv t) as [[b n]|] eqn:Hs; [|done].
  apply search_sound in Hs as (Hb & Hn & _).
  do 2 f_equal. unfold Re.sub_from.
  assert (length (drop (b + n) t) = length t - (b + n)) as Hl
    by apply length_drop.
  destruct (Nat.eqb_spec n 0) as [-> | Hn0].
  - destruct b as [|b]; apply sub_loop_fuel; lia.
  - apply sub_loop_fuel; lia.
Qed.

End ReFacts.

(** ** Marker splice *)

Lemma replace_between_markers_unfold (t s e r : list N) :
  replace_between_markers t s e r =
  match Re.search s e false t with
  | None => t
  | Some (b, n) =>
      take b t ++ (s ++ [nl] ++ r ++ [nl] ++ e) ++
      Re.sub_from s e (s ++ [nl] ++ r ++ [nl] ++ e) (n =? 0) (drop (b + n) t)
  end.
Proof. apply sub_from_unfold. Qed.

Lemma search_no_span (s e : list N) (adv : bool) (t : list N) :
  span_in s e t = false -> Re.search s e adv t = None.
Proof.
  intros H. apply search_none. intros i j Hi.
  destruct (starts_with e _) eqn:E; [|done].
  assert (span_in s e t = true) by (apply span_in_occurs; eauto).
  congruence.
Qed.

Lemma first_span (s e t : list N) :
  span_in s e t = true ->
  exists b k, find s t = Some b /\
              find e (drop (b + length s) t) = Some k.
Proof.
  intros H. apply span_in_occurs in H as (i & j & Hi & Hj).
  apply find_first in Hi as (b & Hb & Hbi). exists b.
  replace (i + length s) with ((b + length s) + (i - b)) in Hj by lia.
  rewrite <- (drop_drop t (i - b) (b + length s)), drop_drop in Hj.
  apply find_first in Hj as (k & Hk & _). eauto.
Qed.

Lemma splice_first_span (t s e r : list N) (b k : nat) :
  s ++ e <> [] ->
  find s t = Some b ->
  find e (drop (b + length s) t) = Some k ->
  replace_between_markers t s e r =
  take b t ++ (s ++ [nl] ++ r ++ [nl] ++ e) ++
  replace_between_markers (drop (b + length s + k + length e) t) s e r.
Proof.
  intros Hse Hb Hk. rewrite replace_between_markers_unfold.
  assert (s <> [] \/ e <> []) as Hse'.
  { destruct s; [right | left]; done. }
  rewrite (search_first s e false t b k) by done.
  assert ((length s + k + length e =? 0) = false) as ->.
  { apply Nat.eqb_neq. destruct Hse' as [H | H];
      [destruct s | destruct e]; simpl; try done; lia. }
  by rewrite !Nat.add_assoc.
Qed.





(** C1 as stated fails: with two spans in the text, the second one is
    replaced as well, its old content is gone; the splice that stops
    after the first span would have kept it. *)
Lemma replace_between_markers_first_only_counterexample :
  let t := str "<S>one<E> and <S>two<E>" in
  let s := str "<S>" in
  let e := str "<E>" in
  let r := str "new" in
  span_in s e t = true /\
  replace_between_markers t s e r =
    str "<S>" ++ [nl] ++ str "new" ++ [nl] ++ str "<E> and <S>" ++
    [nl] ++ str "new" ++ [nl] ++ str "<E>" /\
  replace_first_between_markers t s e r =
    str "<S>" ++ [nl] ++ str "new" ++ [nl] ++ str "<E> and <S>two<E>" /\
  contains (str "<S>two<E>") (replace_between_markers t s e r) = false.
Proof. vm_compute. done. Qed.

(** C1, amended. In a text with at least one span (markers not both
    empty), the first span runs from the first occurrence of the start
    marker to the first occurrence of the end marker after it; it is
    replaced by start marker, newline, replacement, newline, end marker,
    the text before it is kept, and the text after it is spliced in the
    same way: every later span is replaced too. *)
Theorem replace_between_markers_every_span (t s e r : list N) :
  span_in s e t = true ->
  s ++ e <> [] ->
  exists b k,
    find s t = Some b /\
    find e (drop (b + length s) t) = Some k /\
    replace_between_markers t s e r =
      take b t ++ (s ++ [nl] ++ r ++ [nl] ++ e) ++
      replace_between_markers (drop (b + length s + k + length e) t) s e r.
Proof.
  intros Hspan Hse. destruct (first_span s e t Hspan) as (b & k & Hb & Hk).
  exists b, k. split_and!; [done | done |]. by apply splice_first_span.
Qed.

Lemma replace_between_markers_every_span_witness :
  exists b k,
    find (str "<S>") (str "a<S>one<E>b<S>two<E>c") = Some b /\
    find (str "<E>") (drop (b + 3) (str "a<S>one<E>b<S>two<E>c")) = Some k /\
    replace_between_markers (str "a<S>one<E>b<S>two<E>c")
      (str "<S>") (str "<E>") (str "new") =
      take b (str "a<S>one<E>b<S>two<E>c") ++
      (str "<S>" ++ [nl] ++ str "new" ++ [nl] ++ str "<E>") ++
      replace_between_markers
        (drop (b + 3 + k + 3) (str "a<S>one<E>b<S>two<E>c"))
        (str "<S>") (str "<E>") (str "new").
Proof.
  apply (replace_between_markers_every_span
           (str "a<S>one<E>b<S>two<E>c") (str "<S>") (str "<E>") (str "new")).
  - vm_compute. reflexivity.
  - vm_compute. discriminate.
Defined.


(** ** Splicing twice *)

Lemma marker_ok_spec (m : list N) :
  marker_ok m = true -> m <> [] /\ forall k, m !! k <> Some nl.
Proof.
  unfold marker_ok. rewrite andb_true_iff, !negb_true_iff.
  intros [H1 H2]. split; [by apply bool_decide_eq_false in H1|].
  intros k Hk. apply drop_S in Hk.
  pose proof (contains_false_occurs [nl] m k H2) as H.
  rewrite Hk in H. simpl in H. done.
Qed.

Lemma occurrences_ge_1 (p t : list N) (j : nat) :
  j <= length t -> starts_with p (drop j t) = true -> 1 <= occurrences p t.
Proof.
  revert j. induction t as [|c t IH]; intros j Hj H; simpl in *.
  - rewrite drop_nil in H. rewrite H. lia.
  - destruct j as [|j]; simpl in H.
    + rewrite H. lia.
    + specialize (IH j ltac:(lia) H). lia.
Qed.

Lemma occurrences_ge_2 (p t : list N) (i j : nat) :
  i < j -> j <= length t ->
  starts_with p (drop i t) = true -> starts_with p (drop j t) = true ->
  2 <= occurrences p t.
Proof.
  revert i j. induction t as [|c t IH]; intros i j Hij Hj Hi Hj'; simpl in *.
  - lia.
  - destruct j as [|j]; [lia|]. simpl in Hj'. destruct i as [|i]; simpl in Hi.
    + rewrite Hi. pose proof (occurrences_ge_1 p t j ltac:(lia) Hj'). lia.
    + specialize (IH i j ltac:(lia) ltac:(lia) Hi Hj'). lia.
Qed.

Lemma occurrences_0 (p t : list N) :
  (forall j, j <= length t -> starts_with p (drop j t) = false) ->
  occurrences p t = 0.
Proof.
  induction t as [|c t IH]; intros H; simpl.
  - pose proof (H 0 ltac:(done)) as H0. simpl in H0. by rewrite H0.
  - pose proof (H 0 ltac:(lia)) as H0. simpl in H0. rewrite H0.
    rewrite IH; [done|]. intros j Hj. apply (H (S j)). simpl. lia.
Qed.

Lemma occurrences_1 (p t : list N) (i : nat) :
  i <= length t ->
  starts_with p (drop i t) = true ->
  (forall j, j <= length t -> starts_with p (drop j t) = true -> j = i) ->
  occurrences p t = 1.
Proof.
  revert i. induction t as [|c t IH]; intros i Hi Hocc Huniq; simpl in *.
  - rewrite drop_nil in Hocc. by rewrite Hocc.
  - destruct i as [|i]; simpl in Hocc.
    + rewrite Hocc, occurrences_0; [done|].
      intros j Hj. destruct (starts_with p (drop j t)) eqn:E; [|done].
      specialize (Huniq (S j) ltac:(lia) E). done.
    + destruct (starts_with p (c :: t)) eqn:E.
      { specialize (Huniq 0 ltac:(lia) E). done. }
      rewrite (IH i); [done | lia | done |].
      intros j Hj Hj'. specialize (Huniq (S j) ltac:(lia) Hj'). lia.
Qed.

Lemma occurrences_only_at (p t : list N) (i : nat) :
  p <> [] -> occurrences p t = 1 ->
  starts_with p (drop i t) = true -> only_at p t i.
Proof.
  intros Hp H1 Hi. split; [done|]. intros j Hj.
  pose proof (occurs_bound p t i Hp Hi).
  pose proof (occurs_bound p t j Hp Hj).
  destruct (Nat.lt_trichotomy i j) as [Hlt | [-> | Hlt]]; [|done|].
  - pose proof (occurrences_ge_2 p t i j Hlt ltac:(lia) Hi Hj). lia.
  - pose proof (occurrences_ge_2 p t j i Hlt ltac:(lia) Hj Hi). lia.
Qed.

Lemma only_at_occurrences (p t : list N) (i : nat) :
  p <> [] -> only_at p t i -> occurrences p t = 1.
Proof.
  intros Hp [Hi Hu]. apply (occurrences_1 p t i); [|done|].
  - pose proof (occurs_bound p t i Hp Hi). lia.
  - intros j _. apply Hu.
Qed.

(** An occurrence of a marker in a text [u ++ "\n" ++ x ++ "\n" ++ v],
    where [x] does not hold the marker, lies within [u] or within [v]. *)
Lemma occurs_around_block (p u x v : list N) (j : nat) :
  p <> [] -> (forall k, p !! k <> Some nl) -> contains p x = false ->
  starts_with p (drop j (u ++ nl :: x ++ nl :: v)) = true ->
  j + length p <= length u \/ length u + length x + 2 <= j.
Proof.
  intros Hp Hnl Hx H. rewrite occurs_lookup in H.
  destruct (decide (j + length p <= length u)) as [|H1]; [by left|].
  destruct (decide (length u + length x + 2 <= j)) as [|H2]; [by right|].
  exfalso. destruct (decide (j <= length u)) as [H3|H3].
  - specialize (H (length u - j) ltac:(lia)).
    replace (j + (length u - j)) with (length u) in H by lia.
    rewrite list_lookup_middle in H by done. by eapply Hnl.
  - destruct (decide (j + length p <= length u + 1 + length x)) as [H4|H4].
    + pose proof (contains_false_occurs p x (j - length u - 1) Hx) as Hc.
      assert (starts_with p (drop (j - length u - 1) x) = true); [|congruence].
      apply occurs_lookup. intros k Hk. rewrite <- (H k Hk).
      rewrite lookup_app_r by lia.
      replace (j + k - length u) with (S (j - length u - 1 + k)) by lia.
      simpl. by rewrite lookup_app_l by lia.
    + specialize (H (length u + 1 + length x - j) ltac:(lia)).
      rewrite lookup_app_r in H by lia.
      replace (j + (length u + 1 + length x - j) - length u)
        with (S (length x)) in H by lia.
      simpl in H. rewrite list_lookup_middle in H by done. by eapply Hnl.
Qed.

Lemma occurs_in_prefix (p u w w' : list N) (j : nat) :
  j + length p <= length u ->
  starts_with p (drop j (u ++ w)) = true ->
  starts_with p (drop j (u ++ w')) = true.
Proof.
  intros Hj. rewrite !occurs_lookup. intros H k Hk.
  rewrite <- (H k Hk). by rewrite !lookup_app_l by lia.
Qed.


Lemma drop_app_app (a b v : list N) (m : nat) :
  drop (length a + length b + m) (a ++ b ++ v) = drop m v.
Proof.
  rewrite app_assoc, drop_app_ge by (rewrite length_app; lia).
  f_equal. rewrite length_app. lia.
Qed.

(** One splice of a text whose markers occur once each. *)
Lemma splice_unique_span (s e pre mid rest x : list N) :
  s <> [] -> e <> [] ->
  only_at s (pre ++ s ++ mid ++ e ++ rest) (length pre) ->
  only_at e (pre ++ s ++ mid ++ e ++ rest)
          (length pre + length s + length mid) ->
  replace_between_markers (pre ++ s ++ mid ++ e ++ rest) s e x =
  pre ++ s ++ [nl] ++ x ++ [nl] ++ e ++ rest.
Proof.
  intros Hs He [Hs1 Hs2] [He1 He2].
  set (t := pre ++ s ++ mid ++ e ++ rest) in *.
  assert (Hrest : forall m, drop (length pre + length s + length mid + length e + m) t
                            = drop m rest).
  { intros m. unfold t.
    replace (length pre + length s + length mid + length e + m)
      with (length pre + length s + (length mid + length e + m)) by lia.
    by rewrite drop_app_app, drop_app_app. }
  rewrite (splice_first_span t s e x (length pre) (length mid)).
  - rewrite <- (Nat.add_0_r (_ + length e)), Hrest. simpl drop.
    unfold t at 1. rewrite take_app_length.
    rewrite (replace_between_markers_unfold rest), search_no_span.
    + by rewrite <- !app_assoc.
    + destruct (span_in s e rest) eqn:E; [|done].
      apply span_in_occurs in E as (i & j & Hi & _).
      rewrite <- Hrest in Hi. apply Hs2 in Hi.
      destruct s; [done | simpl in Hi; lia].
  - destruct s; done.
  - apply find_Some. split_and!; [done | unfold t; rewrite length_app; lia |].
    intros j Hj. destruct (starts_with s (drop j t)) eqn:E; [|done].
    apply Hs2 in E. lia.
  - assert (Hmid : forall m, drop m (drop (length pre + length s) t)
                             = drop (length pre + length s + m) t)
      by (intros m; apply drop_drop).
    apply find_Some. split_and!.
    + by rewrite Hmid.
    + unfold t. rewrite <- (Nat.add_0_r (_ + length s)), drop_app_app.
      rewrite drop_0, length_app. lia.
    + intros j Hj. rewrite Hmid.
      destruct (starts_with e (drop (length pre + length s + j) t)) eqn:E;
        [|done].
      apply He2 in E. lia.
Qed.

Lemma drop_suffix_transfer (U U' v : list N) (j : nat) :
  length U <= j ->
  drop j (U ++ v) = drop (length U' + (j - length U)) (U' ++ v).
Proof. intros Hj. rewrite !drop_app_ge by lia. f_equal. lia. Qed.

(** After a splice the markers still occur once each. *)
Lemma spliced_only_at (s e pre mid rest x : list N) :
  marker_ok s = true -> marker_ok e = true ->
  only_at s (pre ++ s ++ mid ++ e ++ rest) (length pre) ->
  only_at e (pre ++ s ++ mid ++ e ++ rest)
          (length pre + length s + length mid) ->
  contains s x = false -> contains e x = false ->
  only_at s (pre ++ s ++ (nl :: x ++ [nl]) ++ e ++ rest) (length pre) /\
  only_at e (pre ++ s ++ (nl :: x ++ [nl]) ++ e ++ rest)
          (length pre + length s + length (nl :: x ++ [nl])).
Proof.
  intros Hs He [Hs1 Hs2] [He1 He2] Hsx Hex.
  apply marker_ok_spec in Hs as [Hs Hsnl], He as [He Henl].
  assert (Hlen : 0 < length s /\ 0 < length e)
    by (destruct s, e; simpl; try done; lia).
  assert (HB : length (nl :: x ++ [nl]) = length x + 2)
    by (simpl; rewrite length_app; simpl; lia).
  rewrite HB.
  assert (HT : pre ++ s ++ (nl :: x ++ [nl]) ++ e ++ rest
               = (pre ++ s) ++ nl :: x ++ nl :: (e ++ rest)).
  { simpl. by rewrite <- !app_assoc. }
  assert (HT' : pre ++ s ++ (nl :: x ++ [nl]) ++ e ++ rest
                = (pre ++ s ++ (nl :: x ++ [nl])) ++ e ++ rest).
  { by rewrite <- !app_assoc. }
  assert (HU : length (pre ++ s ++ (nl :: x ++ [nl]))
               = length pre + length s + length x + 2).
  { rewrite !length_app, HB. lia. }
  revert HT HT' HU. generalize (pre ++ s ++ (nl :: x ++ [nl]) ++ e ++ rest).
  generalize (pre ++ s ++ (nl :: x ++ [nl])).
  intros U T HT HT' HU.
  assert (Ht : pre ++ s ++ mid ++ e ++ rest = (pre ++ s) ++ mid ++ e ++ rest)
    by (by rewrite <- !app_assoc).
  assert (Ht' : pre ++ s ++ mid ++ e ++ rest = (pre ++ s ++ mid) ++ e ++ rest)
    by (by rewrite <- !app_assoc).
  assert (HU' : length (pre ++ s ++ mid) = length pre + length s + length mid).
  { rewrite !length_app. lia. }
  revert Hs1 Hs2 He1 He2 Ht Ht' HU'.
  generalize (pre ++ s ++ mid ++ e ++ rest). generalize (pre ++ s ++ mid).
  intros U' t Hs1 Hs2 He1 He2 Ht Ht' HU'.
  assert (Hpres : length (pre ++ s) = length pre + length s)
    by apply length_app.
  assert (Hin : forall p j, j + length p <= length pre + length s ->
            starts_with p (drop j T) = true -> starts_with p (drop j t) = true).
  { intros p j Hj. rewrite HT, Ht. apply occurs_in_prefix. lia. }
  assert (Hout : forall p j, length U <= j ->
            starts_with p (drop j T) = true ->
            starts_with p (drop (length U' + (j - length U)) t) = true).
  { intros p j Hj. rewrite HT', Ht'.
    by rewrite (drop_suffix_transfer U U' (e ++ rest) j Hj). }
  assert (Hblock : forall p j, p <> [] -> (forall k, p !! k <> Some nl) ->
            contains p x = false -> starts_with p (drop j T) = true ->
            j + length p <= length pre + length s \/ length U <= j).
  { intros p j Hp Hnl Hpx Hj. rewrite HT in Hj.
    apply occurs_around_block in Hj; [lia | done..]. }
  split; split.
  - rewrite HT, <- app_assoc, drop_app_length. apply starts_with_app.
  - intros j Hj. destruct (Hblock s j Hs Hsnl Hsx Hj) as [H | H].
    + apply Hs2. by apply Hin.
    + apply Hout in Hj; [|done]. apply Hs2 in Hj. lia.
  - rewrite HT'. replace (length pre + length s + (length x + 2))
      with (length U) by lia.
    rewrite drop_app_length. apply starts_with_app.
  - intros j Hj. destruct (Hblock e j He Henl Hex Hj) as [H | H].
    + apply Hin in Hj; [|done]. apply He2 in Hj. lia.
    + pose proof Hj as Hj'. apply Hout in Hj'; [|done]. apply He2 in Hj'. lia.
Qed.

(** C5 as stated fails for a marker that holds a newline: the splice
    itself writes newlines around the replacement.  With the newline as
    end marker, the text ["S\n"] has one span and one occurrence of each
    marker, neither ["a"] nor ["b"] holds a marker, yet after splicing
    ["a"] and then ["b"] the end marker occurs five times and ["a"] is
    still in the text.  And a text with one span can hold an end marker
    before it: in ["<E><S>old<E>"] no span is left after the first one,
    and both end markers are still there after the two splices. *)
Lemma splice_twice_counterexample :
  (let s := str "S" in
   let e := [nl] in
   let t := str "S" ++ [nl] in
   let t2 := replace_between_markers
               (replace_between_markers t s e (str "a")) s e (str "b") in
   span_in s e t = true /\
   occurrences s t = 1 /\ occurrences e t = 1 /\
   contains s (str "a") = false /\ contains e (str "a") = false /\
   contains s (str "b") = false /\ contains e (str "b") = false /\
   t2 = str "S" ++ [nl] ++ str "b" ++ [nl] ++ [nl] ++ str "a" ++ [nl] ++ [nl] /\
   occurrences e t2 = 5 /\
   contains (str "a") t2 = true) /\
  (let s := str "<S>" in
   let e := str "<E>" in
   let t := str "<E><S>old<E>" in
   let t2 := replace_between_markers
               (replace_between_markers t s e (str "a")) s e (str "b") in
   marker_ok s = true /\ marker_ok e = true /\
   find s t = Some 3 /\ find e (drop (3 + 3) t) = Some 3 /\
   span_in s e (drop (3 + 3 + 3 + 3) t) = false /\
   contains s (str "a") = false /\ contains e (str "a") = false /\
   contains s (str "b") = false /\ contains e (str "b") = false /\
   t2 = str "<E><S>" ++ [nl] ++ str "b" ++ [nl] ++ str "<E>" /\
   occurrences e t2 = 2).
Proof. vm_compute. done. Qed.

(** C5, amended. The markers are not empty and hold no newline; each
    occurs exactly once in the text, the start marker before the end
    marker; neither occurs in the replacements [a] and [b].  Then
    splicing [a] and then [b] gives the text with exactly one occurrence
    of each marker and only [b], between two newlines, between them. *)
Theorem splice_twice_keeps_latest (t s e a b pre mid rest : list N) :
  marker_ok s = true -> marker_ok e = true ->
  t = pre ++ s ++ mid ++ e ++ rest ->
  occurrences s t = 1 -> occurrences e t = 1 ->
  contains s a = false -> contains e a = false ->
  contains s b = false -> contains e b = false ->
  let t2 := replace_between_markers
              (replace_between_markers t s e a) s e b in
  t2 = pre ++ s ++ [nl] ++ b ++ [nl] ++ e ++ rest /\
  occurrences s t2 = 1 /\ occurrences e t2 = 1.
Proof.
  intros Hs He -> Hs1 He1 Hsa Hea Hsb Heb.
  destruct (marker_ok_spec s Hs) as [Hs0 _].
  destruct (marker_ok_spec e He) as [He0 _].
  assert (Hos : only_at s (pre ++ s ++ mid ++ e ++ rest) (length pre)).
  { apply occurrences_only_at; [done | done |].
    rewrite drop_app_length. apply starts_with_app. }
  assert (Hoe : only_at e (pre ++ s ++ mid ++ e ++ rest)
                        (length pre + length s + length mid)).
  { apply occurrences_only_at; [done | done |].
    replace (length pre + length s + length mid)
      with (length (pre ++ s ++ mid)) by (rewrite !length_app; lia).
    replace (pre ++ s ++ mid ++ e ++ rest)
      with ((pre ++ s ++ mid) ++ e ++ rest) by (by rewrite <- !app_assoc).
    rewrite drop_app_length. apply starts_with_app. }
  destruct (spliced_only_at s e pre mid rest a) as [Hos1 Hoe1]; try done.
  destruct (spliced_only_at s e pre mid rest b) as [Hos2 Hoe2]; try done.
  assert (Hshape : forall x, pre ++ s ++ [nl] ++ x ++ [nl] ++ e ++ rest
                             = pre ++ s ++ (nl :: x ++ [nl]) ++ e ++ rest).
  { intros x. simpl. by rewrite <- !app_assoc. }
  intros t2. unfold t2.
  rewrite (splice_unique_span s e pre mid rest a) by done.
  rewrite Hshape, (splice_unique_span s e pre _ rest b) by done.
  split_and!; [done | |]; rewrite Hshape.
  - by apply only_at_occurrences in Hos2.
  - by apply only_at_occurrences in Hoe2.
Qed.

Lemma splice_twice_keeps_latest_witness :
  let s := str "<!-- PUBLICATIONS-START -->" in
  let e := str "<!-- PUBLICATIONS-END -->" in
  let pre := str "<body>" in
  let rest := str "</body>" in
  let t := pre ++ s ++ str "old" ++ e ++ rest in
  let t2 := replace_between_markers
              (replace_between_markers t s e (str "first")) s e
              (str "second") in
  t2 = pre ++ s ++ [nl] ++ str "second" ++ [nl] ++ e ++ rest /\
  occurrences s t2 = 1 /\ occurrences e t2 = 1.
Proof.
  intros s e pre rest t.
  apply (splice_twice_keeps_latest t s e (str "first") (str "second")
           pre (str "old") rest); vm_compute; reflexivity.
Defined.

(** ** Escaping *)

Lemma replace_char (c : N) (new s : list N) :
  replace [c] new s = flat_map (fun x => if (x =? c)%N then new else [x]) s.
Proof.
  unfold replace. induction s as [|x s IH]; [done|].
  cbn [replace_from starts_with flat_map length]. rewrite andb_true_r.
  rewrite (N.eqb_sym c x). simpl. rewrite IH.
  by destruct (x =? c)%N.
Qed.

Lemma flat_map_flat_map {A B C} (f : A -> list B) (g : B -> list C)
    (l : list A) :
  flat_map g (flat_map f l) = flat_map (fun x => flat_map g (f x)) l.
Proof.
  induction l as [|x l IH]; [done|].
  simpl. by rewrite flat_map_app, IH.
Qed.

Lemma escape_html_chars (s : list N) :
  escape_html s = flat_map html_entity s.
Proof.
  unfold escape_html.
  change (str ">") with [62%N]. change (str "<") with [60%N].
  change (str "&") with [38%N].
  rewrite !replace_char, !flat_map_flat_map.
  apply flat_map_ext. intros x. unfold html_entity.
  destruct (N.eqb_spec x 38) as [-> | H1]; [done|].
  cbn [flat_map]. rewrite app_nil_r.
  destruct (N.eqb_spec x 60) as [-> | H2]; [done|].
  cbn [flat_map]. rewrite app_nil_r. done.
Qed.

Lemma escape_latex_chars (s : list N) :
  escape_latex s = flat_map latex_escaped s.
Proof.
  unfold escape_latex, special. cbn [fold_left fst snd].
  change (str "&") with [38%N]. change (str "%") with [37%N].
  change (str "#") with [35%N]. change (str "_") with [95%N].
  change (str "~") with [126%N].
  rewrite !replace_char, !flat_map_flat_map.
  apply flat_map_ext. intros x. unfold latex_escaped.
  destruct (N.eqb_spec x 38) as [-> | H1]; [done|].
  cbn [flat_map]. rewrite app_nil_r.
  destruct (N.eqb_spec x 37) as [-> | H2]; [done|].
  cbn [flat_map]. rewrite app_nil_r.
  destruct (N.eqb_spec x 35) as [-> | H3]; [done|].
  cbn [flat_map]. rewrite app_nil_r.
  destruct (N.eqb_spec x 95) as [-> | H4]; [done|].
  cbn [flat_map]. rewrite app_nil_r. done.
Qed.

Lemma occurrences_char_cons (c x : N) (t : list N) :
  occurrences [c] (x :: t) =
  (if (c =? x)%N then 1 else 0) + occurrences [c] t.
Proof. simpl. by rewrite andb_true_r. Qed.

Lemma occurrences_char_app (c : N) (a b : list N) :
  occurrences [c] (a ++ b) = occurrences [c] a + occurrences [c] b.
Proof.
  induction a as [|x a IH]; [done|].
  rewrite <- app_comm_cons, !occurrences_char_cons, IH. lia.
Qed.

Lemma latex_escaped_dollars (x : N) :
  occurrences [36%N] (latex_escaped x) = occurrences [36%N] [x].
Proof.
  unfold latex_escaped.
  repeat (match goal with
          | |- context [(x =? ?n)%N] =>
              destruct (N.eqb_spec x n) as [-> | ?]; [done|]
          end).
  done.
Qed.

(** C6. [escape_html] turns every ["&"], ["<"] and [">"] of the input
    into its entity and copies every other character, so an ampersand
    it writes is not escaped again; [escape_latex] turns every ["&"],
    ["%"], ["#"], ["_"] and ["~"] of the input into its LaTeX escape and
    copies every other character, the dollar sign (character 36) among
    them: the result has as many dollar signs as the input. *)
Theorem escape_html_latex_per_character (s : list N) :
  escape_html s = flat_map html_entity s /\
  escape_latex s = flat_map latex_escaped s /\
  latex_escaped 36 = [36%N] /\
  occurrences [36%N] (escape_latex s) = occurrences [36%N] s.
Proof.
  split_and!.
  - apply escape_html_chars.
  - apply escape_latex_chars.
  - done.
  - rewrite escape_latex_chars. induction s as [|x s IH]; [done|].
    cbn [flat_map]. rewrite occurrences_char_app, IH, latex_escaped_dollars.
    change (x :: s) with ([x] ++ s). by rewrite occurrences_char_app.
Qed.

(** ** Name Formatter *)

Lemma contains_char_cons (c x : N) (s : list N) :
  contains [c] (x :: s) = (c =? x)%N || contains [c] s.
Proof. simpl. by rewrite andb_true_r. Qed.


Lemma contains_char_app (c : N) (a b : list N) :
  contains [c] (a ++ b) = contains [c] a || contains [c] b.
Proof.
  induction a as [|x a IH]; [done|].
  rewrite <- app_comm_cons, !contains_char_cons, IH. by rewrite orb_assoc.
Qed.

Lemma split_cons_sep (sep : N) (n : nat) (s : list N) :
  split sep (Some (S n)) (sep :: s) = [] :: split sep (Some n) s.
Proof. simpl. by rewrite N.eqb_refl. Qed.

Lemma split_zero (sep : N) (s : list N) : split sep (Some 0) s = [s].
Proof.
  induction s as [|c s IH]; [done|].
  simpl. rewrite andb_false_r. by rewrite IH.
Qed.

(** Splitting at the first separator. *)
Lemma split_first (sep : N) (n : nat) (first rest : list N) :
  contains [sep] first = false ->
  split sep (Some (S n)) (first ++ sep :: rest)
  = first :: split sep (Some n) rest.
Proof.
  induction first as [|c first IH]; intros H.
  - apply split_cons_sep.
  - rewrite contains_char_cons in H. apply orb_false_iff in H as [H1 H2].
    rewrite <- app_comm_cons. cbn [split].
    rewrite (N.eqb_sym c sep), H1. simpl. by rewrite IH.
Qed.

Lemma split_first_nolimit (sep : N) (first rest : list N) :
  contains [sep] first = false ->
  split sep None (first ++ sep :: rest) = first :: split sep None rest.
Proof.
  induction first as [|c first IH]; intros H.
  - simpl. by rewrite N.eqb_refl.
  - rewrite contains_char_cons in H. apply orb_false_iff in H as [H1 H2].
    rewrite <- app_comm_cons. cbn [split].
    rewrite (N.eqb_sym c sep), H1. simpl. by rewrite IH.
Qed.

Lemma split_no_sep (sep : N) (m : option nat) (s : list N) :
  contains [sep] s = false -> split sep m s = [s].
Proof.
  induction s as [|c s IH]; intros H; [done|].
  rewrite contains_char_cons in H. apply orb_false_iff in H as [H1 H2].
  cbn [split]. rewrite (N.eqb_sym c sep), H1. simpl. by rewrite IH.
Qed.

(** A string with a [c] is cut at its first [c]. *)
Lemma cut_at_first (c : N) (s : list N) :
  contains [c] s = true ->
  exists rest, s = before_first c s ++ c :: rest /\
               contains [c] (before_first c s) = false.
Proof.
  induction s as [|x s IH]; intros H; [done|].
  rewrite contains_char_cons in H. simpl.
  destruct (N.eqb_spec x c) as [-> | Hx].
  - by exists s.
  - rewrite (proj2 (N.eqb_neq c x)) in H by done. simpl in H.
    destruct (IH H) as (rest & Hs & Hb). exists rest. split.
    + simpl. by rewrite <- Hs.
    + rewrite contains_char_cons, Hb.
      by rewrite (proj2 (N.eqb_neq c x)) by done.
Qed.

Lemma before_first_no_sep (c : N) (s : list N) :
  contains [c] s = false -> before_first c s = s.
Proof.
  induction s as [|x s IH]; intros H; [done|].
  rewrite contains_char_cons in H. apply orb_false_iff in H as [H1 H2].
  simpl. rewrite (N.eqb_sym x c), H1. by rewrite IH.
Qed.

(** Under the test of [format_author_short] the unpacking of
    [split(",", 1)] into two names succeeds. *)
Lemma split_once (s : list N) :
  contains [comma] s = true ->
  exists first, s = before_first comma s ++ comma :: first /\
                split comma (Some 1) s = [before_first comma s; first].
Proof.
  intros H. destruct (cut_at_first comma s H) as (rest & Hs & Hb).
  exists rest. split; [done|].
  rewrite Hs at 1. by rewrite split_first, split_zero.
Qed.

(** [split(",")[0]] is the text before the first comma. *)
Lemma split_head (s : list N) :
  hd [] (split comma None s) = before_first comma s.
Proof.
  destruct (contains [comma] s) eqn:H.
  - destruct (cut_at_first comma s H) as (rest & Hs & Hb).
    rewrite Hs at 1. by rewrite split_first_nolimit.
  - by rewrite split_no_sep, before_first_no_sep.
Qed.

Lemma lstrip_spaces (s : list N) : forallb isspace s = true -> lstrip s = [].
Proof.
  induction s as [|c s IH]; [done|]. simpl.
  intros H. apply andb_true_iff in H as [H1 H2]. rewrite H1. by apply IH.
Qed.

Lemma strip_spaces (s : list N) : forallb isspace s = true -> strip s = [].
Proof. intros H. unfold strip. by rewrite lstrip_spaces. Qed.

(** C9. A name with a comma and nothing but white space (or nothing at
    all) after the first comma is rendered as a period, a space and the
    stripped text before the comma: there is no initial. *)
Theorem format_author_short_no_first_name (last rest : list N) :
  contains [comma] last = false ->
  forallb isspace rest = true ->
  format_author_short (last ++ [comma] ++ rest) = str ". " ++ strip last.
Proof.
  intros Hlast Hrest. unfold format_author_short.
  change ([comma] ++ rest) with (comma :: rest).
  rewrite contains_char_app, contains_char_cons, N.eqb_refl, orb_true_r.
  rewrite split_first, split_zero by done.
  by rewrite strip_spaces.
Qed.

Lemma format_author_short_no_first_name_witness :
  format_author_short (str " Smith ,  ") = str ". Smith".
Proof.
  apply (format_author_short_no_first_name (str " Smith ") (str "  "));
    vm_compute; reflexivity.
Defined.

Lemma contains_lstrip (a : N) (p x : list N) :
  isspace a = false ->
  contains (a :: p) (lstrip x) = contains (a :: p) x.
Proof.
  intros Ha. induction x as [|c x IH]; [done|].
  cbn [lstrip]. destruct (isspace c) eqn:Hc; [|done].
  rewrite IH. cbn [contains starts_with].
  destruct (N.eqb_spec a c) as [-> | _]; [congruence | done].
Qed.

Lemma contains_rev (p y : list N) :
  contains p (rev y) = contains (rev p) y.
Proof.
  apply eq_true_iff_eq. rewrite !contains_split. split.
  - intros (pre & suf & H). apply (f_equal (@rev N)) in H.
    rewrite rev_involutive, !rev_app_distr, <- app_assoc in H. eauto.
  - intros (pre & suf & ->).
    rewrite !rev_app_distr, rev_involutive, <- app_assoc. eauto.
Qed.

Lemma contains_strip (p x : list N) (a b : N) (p1 p2 : list N) :
  p = a :: p1 -> rev p = b :: p2 ->
  isspace a = false -> isspace b = false ->
  contains p (strip x) = contains p x.
Proof.
  intros Hp Hr Ha Hb. unfold strip, rstrip.
  rewrite contains_rev, Hr, contains_lstrip by done.
  rewrite <- Hr, <- contains_rev, rev_involutive, Hp.
  by apply contains_lstrip.
Qed.

Lemma contains_Berean_strip (x : list N) :
  contains (str "Berean") (strip x) = contains (str "Berean") x.
Proof. by eapply contains_strip. Qed.

(** [is_me] as a test on the stripped name and on the text before its
    first comma. *)
Lemma is_me_eq (full_name : list N) :
  is_me full_name =
  bool_decide (strip full_name ∈ MY_NAMES) ||
  contains (str "Berean") (before_first comma (strip full_name)).
Proof.
  unfold is_me. destruct (bool_decide _); [done|]. simpl.
  destruct (contains [comma] (strip full_name)) eqn:H.
  - by rewrite split_head, contains_Berean_strip.
  - by rewrite before_first_no_sep.
Qed.

(** C7. [is_me] answers true exactly when the stripped name is one of
    the four known names, or the text before its first comma (all of it
    when it has no comma) has ["Berean"] in it. *)
Theorem is_me_exactly (full_name : list N) :
  is_me full_name = true <->
  strip full_name ∈ MY_NAMES \/
  exists pre suf,
    before_first comma (strip full_name) = pre ++ str "Berean" ++ suf.
Proof.
  rewrite is_me_eq, orb_true_iff, bool_decide_eq_true, contains_split.
  done.
Qed.

(** ** Author list, HTML variant *)

Lemma coauthors_of_cons (a : gmap (list N) (list N))
    (l : list (gmap (list N) (list N))) :
  coauthors_of (a :: l) =
  if is_me (get_full_name a) then coauthors_of l
  else format_author_short (get_full_name a) :: coauthors_of l.
Proof.
  unfold coauthors_of. simpl. by destruct (is_me (get_full_name a)).
Qed.

(** The first loop of [author_list_html] collects the coauthors and
    the position of the last entry that names the owner. *)
Lemma scan_authors (l : list (gmap (list N) (list N))) (n : nat)
    (co : list (list N)) (idx : option nat) :
  fold_left scan_author (combine (seq n (length l)) l) (co, idx) =
  (co ++ coauthors_of l,
   match owner_index (List.map get_full_name l) with
   | Some i => Some (n + i)
   | None => idx
   end).
Proof.
  revert n co idx. induction l as [|a l IH]; intros n co idx.
  - simpl. by rewrite app_nil_r.
  - cbn [length seq combine fold_left List.map owner_index].
    rewrite coauthors_of_cons. unfold scan_author at 2. cbn [fst snd].
    destruct (is_me (get_full_name a)); rewrite IH.
    + destruct (owner_index _) as [i|].
      * by replace (n + S i) with (S n + i) by lia.
      * by rewrite Nat.add_0_r.
    + rewrite <- app_assoc. destruct (owner_index _) as [i|]; [|done].
      by replace (n + S i) with (S n + i) by lia.
Qed.



(** ** Links *)


(** ** Record Fetcher *)

Lemma bind_Ok {A B} (m : result A) (f : A -> result B) (b : B) :
  m ≫= f = Ok b -> exists a, m = Ok a /\ f a = Ok b.
Proof. destruct m as [a|]; [|done]. intros H. by exists a. Qed.

Lemma py_get_Ok (o : pyval) (key : list N) (dflt v : pyval) :
  py_get o key dflt = Ok v ->
  exists d, o = PDict d /\ v = default dflt (assoc key d).
Proof. destruct o; try done. intros [= <-]. eauto. Qed.

(** The [year] entry read by the loop is [explicit_year]. *)
Lemma pub_info_year (meta pc pub_info year0 : pyval) :
  py_get meta (str "publication_info") PNone = Ok pc ->
  (if truthy pc
   then l ← py_get meta (str "publication_info") (PList [PDict []]);
        py_item0 l
   else Ok (PDict [])) = Ok pub_info ->
  py_get pub_info (str "year") PNone = Ok year0 ->
  year0 = explicit_year meta.
Proof.
  intros Hpc Hpub Hy.
  apply py_get_Ok in Hpc as (m & -> & ->).
  apply py_get_Ok in Hy as (info & -> & ->).
  unfold explicit_year. cbn [py_get] in Hpub.
  destruct (assoc (str "publication_info") m) as [v|];
    cbn [default from_option id] in *.
  - destruct (truthy v) eqn:Hv.
    + destruct v as [| | | |[|c s]|[|x l]|]; simpl in Hpub; try done.
      by injection Hpub as ->.
    + injection Hpub as <-.
      destruct v as [| | | | |[|x l]|]; try done.
  - by injection Hpub as <-.
Qed.

Lemma process_hits_records (hits : list pyval) (acc papers : list paper) :
  process_hits hits acc = Ok papers ->
  exists new,
    papers = acc ++ new /\
    Forall (fun p => exists hit, hit ∈ hits /\ process_hit hit = Ok (Some p))
           new.
Proof.
  revert acc. induction hits as [|hit hits IH]; intros acc H; simpl in H.
  - injection H as <-. exists []. by rewrite app_nil_r.
  - apply bind_Ok in H as (r & Hr & H). destruct r as [p|].
    + destruct (IH _ H) as (new & -> & Hnew). exists (p :: new). split.
      * by rewrite <- app_assoc.
      * constructor.
        -- exists hit. split; [left | done].
        -- eapply Forall_impl; [exact Hnew|].
           intros q (h & Hh & Hq). exists h. split; [by right | done].
    + destruct (IH _ H) as (new & -> & Hnew). exists new. split; [done|].
      eapply Forall_impl; [exact Hnew|].
      intros q (h & Hh & Hq). exists h. split; [by right | done].
Qed.

(** Every record that [fetch_papers] returns was made by the loop body
    from one of the hits. *)
Lemma fetch_papers_records (data : pyval) (papers : list paper) (p : paper) :
  fetch_papers data = Ok papers -> p ∈ papers ->
  exists hit, process_hit hit = Ok (Some p).
Proof.
  unfold fetch_papers. intros H Hp.
  apply bind_Ok in H as (h & _ & H).
  apply bind_Ok in H as (hs & _ & H).
  apply bind_Ok in H as (hits & _ & H).
  apply process_hits_records in H as (new & -> & Hnew).
  rewrite Forall_forall in Hnew.
  destruct (Hnew p Hp) as (hit & _ & Hhit). eauto.
Qed.

(** C2 as stated fails: a year given as a JSON number stays a number,
    and an [earliest_date] shorter than four characters gives a shorter
    year. *)
Lemma year_four_characters_counterexample :
  year_of_hit
    (PDict [(str "metadata",
             PDict [(str "publication_info",
                     PList [PDict [(str "year", PInt 2021)]])])])
  = Some (PInt 2021) /\
  year_of_hit
    (PDict [(str "metadata", PDict [(str "earliest_date", PStr (str "99"))])])
  = Some (PStr (str "99")).
Proof. split; vm_compute; reflexivity. Qed.

(** C2, amended. The year of a record is the [year] entry of the first
    [publication_info] item, as it is, when that entry is true in a
    condition; otherwise it is the first four characters of the
    [earliest_date] string, or all of it when it is shorter (the empty
    string when it is empty or missing), the first four items when
    [earliest_date] is a non-empty array, and the empty string when
    [earliest_date] is false in a condition. *)
Theorem year_of_processed_hit (hit : pyval) (p : paper) :
  process_hit hit = Ok (Some p) ->
  let y0 := explicit_year (hit_meta hit) in
  let ed := earliest_date (hit_meta hit) in
  if truthy y0 then year p = y0
  else match ed with
       | PStr s =>
           year p = PStr (take 4 s) /\ length (take 4 s) = min 4 (length s)
       | PList (x :: l) => year p = PList (take 4 (x :: l))
       | _ => year p = PStr []
       end.
Proof.
  intros H. cbv zeta. unfold process_hit in H.
  apply bind_Ok in H as (meta & Hmeta & H).
  apply bind_Ok in H as (doc_types & _ & H).
  apply bind_Ok in H as (thesis & _ & H).
  destruct thesis; [done|].
  apply bind_Ok in H as (titles & _ & H).
  apply bind_Ok in H as (t0 & _ & H).
  apply bind_Ok in H as (ttl & _ & H).
  apply bind_Ok in H as (authors_raw & _ & H).
  apply bind_Ok in H as (arx & _ & H).
  apply bind_Ok in H as (pc & Hpc & H).
  apply bind_Ok in H as (pub_info & Hpub & H).
  apply bind_Ok in H as (jrn & _ & H).
  apply bind_Ok in H as (year0 & Hy0 & H).
  apply bind_Ok in H as (yr & Hyr & H).
  apply bind_Ok in H as (d & _ & H).
  apply bind_Ok in H as (iid & _ & H).
  injection H as <-. cbn [year].
  pose proof (pub_info_year meta pc pub_info year0 Hpc Hpub Hy0) as ->.
  apply py_get_Ok in Hmeta as (h & -> & ->). cbn [hit_meta].
  set (meta := default (PDict []) (assoc (str "metadata") h)) in *.
  destruct (truthy (explicit_year meta)); [by injection Hyr as <-|].
  apply bind_Ok in Hyr as (earliest & He & Hyr).
  apply py_get_Ok in He as (m & Hm & ->).
  unfold earliest_date. rewrite Hm.
  destruct (default (PStr []) (assoc (str "earliest_date") m))
    as [|b|z|f|s|[|x l]|[|kv dd]]; cbn in Hyr.
  - by injection Hyr as <-.
  - destruct b; [done | by injection Hyr as <-].
  - destruct (z =? 0)%Z; cbn in Hyr; [by injection Hyr as <- | done].
  - destruct f; cbn in Hyr; try done; by injection Hyr as <-.
  - split; [|apply length_take].
    destruct s; cbn in Hyr; by injection Hyr as <-.
  - by injection Hyr as <-.
  - by injection Hyr as <-.
  - by injection Hyr as <-.
  - done.
Qed.

Lemma year_of_processed_hit_witness :
  year (Paper (PStr (str "Untitled")) (PList []) PNone PNone
          (PStr (str "2021")) PNone (PInt 7))
  = PStr (str "2021") /\
  length (str "2021") = min 4 (length (str "2021-03-04")).
Proof.
  apply (year_of_processed_hit
           (PDict [(str "id", PInt 7);
                   (str "metadata",
                    PDict [(str "earliest_date", PStr (str "2021-03-04"))])])).
  vm_compute. reflexivity.
Defined.

(** * Further properties *)

(** ** Names *)

(** X1. A name with a comma is rendered as the first character of what
    follows the first comma, stripped, then a period, a space and the
    stripped text before that comma; what the first name holds after
    its first character, further commas included, is dropped. *)
Theorem format_author_short_initial (last rest : list N) :
  contains [comma] last = false ->
  format_author_short (last ++ [comma] ++ rest)
  = take 1 (strip rest) ++ str ". " ++ strip last.
Proof.
  intros Hlast. unfold format_author_short.
  change ([comma] ++ rest) with (comma :: rest).
  rewrite contains_char_app, contains_char_cons, N.eqb_refl, orb_true_r.
  rewrite split_first, split_zero by done.
  by destruct (strip rest).
Qed.

Lemma format_author_short_initial_witness :
  format_author_short (str "van der Berg , jan, jr.") = str "j. van der Berg".
Proof.
  apply (format_author_short_initial (str "van der Berg ") (str " jan, jr."));
    vm_compute; reflexivity.
Defined.

Lemma lstrip_skip (l y : list N) :
  forallb isspace l = true -> lstrip (l ++ y) = lstrip y.
Proof.
  induction l as [|c l IH]; [done|]. simpl.
  intros H. apply andb_true_iff in H as [-> H]. by apply IH.
Qed.

Lemma lstrip_app (y r : list N) :
  lstrip (y ++ r) = if forallb isspace y then lstrip r else lstrip y ++ r.
Proof.
  induction y as [|c y IH]; [done|]. simpl.
  destruct (isspace c); [apply IH | done].
Qed.

Lemma forallb_rev {A} (f : A -> bool) (l : list A) :
  forallb f (rev l) = forallb f l.
Proof.
  induction l as [|x l IH]; [done|].
  simpl. rewrite forallb_app, IH. simpl. by rewrite andb_true_r, andb_comm.
Qed.

Lemma rstrip_skip (y r : list N) :
  forallb isspace r = true -> rstrip (y ++ r) = rstrip y.
Proof.
  intros H. unfold rstrip. rewrite rev_app_distr, lstrip_skip; [done|].
  by rewrite forallb_rev.
Qed.

Lemma strip_outer (l x r : list N) :
  forallb isspace l = true -> forallb isspace r = true ->
  strip (l ++ x ++ r) = strip x.
Proof.
  intros Hl Hr. unfold strip. rewrite lstrip_skip, lstrip_app by done.
  destruct (forallb isspace x) eqn:Hx.
  - by rewrite !lstrip_spaces.
  - by rewrite rstrip_skip.
Qed.

(** X2. White space before and after a name does not change the answer
    of [is_me]. *)
Theorem is_me_ignores_outer_space (l x r : list N) :
  forallb isspace l = true -> forallb isspace r = true ->
  is_me (l ++ x ++ r) = is_me x.
Proof.
  intros Hl Hr. by rewrite !is_me_eq, strip_outer.
Qed.

Lemma is_me_ignores_outer_space_witness :
  is_me ([9; 32; 160]%N ++ str "Berean, K." ++ [32; 10; 8195]%N)
  = is_me (str "Berean, K.").
Proof.
  apply (is_me_ignores_outer_space [9; 32; 160]%N (str "Berean, K.")
           [32; 10; 8195]%N); vm_compute; reflexivity.
Defined.

(** ** Author lists *)

Lemma names_fold (authors : list (gmap (list N) (list N)))
    (acc : list (list N)) :
  fold_left (fun names a =>
               let fn := get_full_name a in
               if is_me fn then names ++ [me_html]
               else names ++ [format_author_short fn])
            authors acc
  = acc ++ List.map display_name authors.
Proof.
  revert acc. induction authors as [|a authors IH]; intros acc.
  - simpl. by rewrite app_nil_r.
  - cbn [fold_left List.map]. unfold display_name at 1.
    destruct (is_me (get_full_name a)); rewrite IH, <- app_assoc; done.
Qed.

(** X3. With at most two coauthors every author entry is shown, in the
    order of the entries, the owner in bold and the others in short
    form: joined by [" & "] when there are at most two entries, else by
    [", "] with [" & "] before the last one. *)
Theorem author_list_html_shows_everyone
    (authors : list (gmap (list N) (list N))) :
  length (coauthors_of authors) <= 2 ->
  let names := List.map display_name authors in
  (length authors <= 2 ->
   author_list_html authors = join (str " & ") names) /\
  (2 < length authors ->
   exists init lst,
     names = init ++ [lst] /\
     author_list_html authors = join (str ", ") init ++ str " & " ++ lst).
Proof.
  intros Hco names. unfold author_list_html, enumerate.
  rewrite scan_authors. cbn [fst snd app].
  rewrite (proj2 (Nat.leb_le _ _) Hco), names_fold. cbn [app].
  fold names. assert (Hlen : length names = length authors)
    by (unfold names; apply length_map).
  rewrite Hlen. split; intros H.
  - by rewrite (proj2 (Nat.leb_le _ _) H).
  - rewrite (proj2 (Nat.leb_gt _ _) H).
    assert (names <> []) as Hne by (destruct names; simpl in *; [lia | done]).
    exists (removelast names), (List.last names []). split.
    + by apply app_removelast_last.
    + rewrite removelast_firstn_len, <- Hlen.
      by replace (Init.Nat.pred (length names)) with (length names - 1) by lia.
Qed.

Lemma author_list_html_shows_everyone_witness :
  let author (name : string) : gmap (list N) (list N) :=
    {[ str "full_name" := str name ]} in
  let authors := [ author "Alpha, Ann"; author "Berean, J.";
                   author "Berean-Dutcher, Jonah"; author "Beta, Bob" ] in
  let names := List.map display_name authors in
  (length authors <= 2 ->
   author_list_html authors = join (str " & ") names) /\
  (2 < length authors ->
   exists init lst,
     names = init ++ [lst] /\
     author_list_html authors = join (str ", ") init ++ str " & " ++ lst).
Proof.
  intros author authors.
  apply (author_list_html_shows_everyone authors).
  vm_compute. lia.
Defined.

Lemma latex_fold (authors : list (gmap (list N) (list N)))
    (acc : list (list N)) :
  fold_left (fun coauthors a =>
               let fn := get_full_name a in
               if is_me fn then coauthors
               else coauthors ++
                    [replace (str " ") (str "~") (format_author_short fn)])
            authors acc
  = acc ++ List.map tilde (coauthors_of authors).
Proof.
  revert acc. induction authors as [|a authors IH]; intros acc.
  - simpl. by rewrite app_nil_r.
  - cbn [fold_left]. rewrite coauthors_of_cons.
    destruct (is_me (get_full_name a)); rewrite IH; [done|].
    by rewrite <- app_assoc.
Qed.

Lemma tilde_no_space (name : list N) : contains (str " ") (tilde name) = false.
Proof.
  unfold tilde. change (str " ") with [32%N]. rewrite replace_char.
  induction name as [|c name IH]; [done|].
  cbn [flat_map]. rewrite contains_char_app, IH, orb_false_r.
  destruct (N.eqb_spec c 32) as [-> | Hc]; [done|].
  rewrite contains_char_cons. by rewrite (proj2 (N.eqb_neq 32 c)) by done.
Qed.

(** X4. [author_list_latex] shows the coauthors that [author_list_html]
    counts, in the same order, each with its spaces turned into ties (so
    no shown name holds a space): none gives no clause at all, one or
    two are joined by [" \& "], and of more than two the first two are
    shown, joined by [", "] and followed by [" et al."]. *)
Theorem author_list_latex_coauthors
    (authors : list (gmap (list N) (list N))) :
  author_list_latex authors =
    match List.map tilde (coauthors_of authors) with
    | [] => None
    | [a] => Some a
    | [a; b] => Some (a ++ str " \& " ++ b)
    | a :: b :: _ :: _ => Some (a ++ str ", " ++ b ++ str " et al.")
    end /\
  Forall (fun c => contains (str " ") c = false)
         (List.map tilde (coauthors_of authors)).
Proof.
  split.
  - unfold author_list_latex. rewrite latex_fold. cbn [app].
    destruct (List.map tilde (coauthors_of authors)) as [|a [|b [|c l]]];
      try done.
    cbn [length Nat.leb take join]. by rewrite <- !app_assoc.
  - apply Forall_forall. intros c Hc. apply list_elem_of_In in Hc.
    apply in_map_iff in Hc as (name & <- & _). apply tilde_no_space.
Qed.

(** ** Escaping *)

Lemma html_entity_cancel (x y : N) (u v : list N) :
  html_entity x ++ u = html_entity y ++ v -> x = y /\ u = v.
Proof.
  unfold html_entity.
  destruct (N.eqb_spec x 38) as [-> | Hx1];
    [|destruct (N.eqb_spec x 60) as [-> | Hx2];
      [|destruct (N.eqb_spec x 62) as [-> | Hx3]]];
  (destruct (N.eqb_spec y 38) as [-> | Hy1];
    [|destruct (N.eqb_spec y 60) as [-> | Hy2];
      [|destruct (N.eqb_spec y 62) as [-> | Hy3]]]);
  cbn; intros H; simplify_eq; done.
Qed.

(** X5. [escape_html] loses nothing: two strings with the same escaped
    form are the same string. *)
Theorem escape_html_injective (a b : list N) :
  escape_html a = escape_html b -> a = b.
Proof.
  rewrite !escape_html_chars. revert b.
  induction a as [|x a IH]; intros [|y b] H; cbn [flat_map] in H.
  - done.
  - exfalso. unfold html_entity in H. repeat case_match; done.
  - exfalso. unfold html_entity in H. repeat case_match; done.
  - apply html_entity_cancel in H as [-> H]. f_equal. by apply IH.
Qed.

Lemma escape_html_injective_witness :
  str "a < b && c" = str "a < b && c".
Proof.
  apply (escape_html_injective (str "a < b && c") (str "a < b && c")).
  reflexivity.
Defined.

Lemma contains_char_flat_map (c : N) (f : N -> list N) (s : list N) :
  (forall x, contains [c] (f x) = false) ->
  contains [c] (flat_map f s) = false.
Proof.
  intros Hf. induction s as [|x s IH]; [done|].
  cbn [flat_map]. by rewrite contains_char_app, Hf, IH.
Qed.

Lemma html_entity_no_angle (x : N) :
  contains [60%N] (html_entity x) = false /\
  contains [62%N] (html_entity x) = false.
Proof.
  unfold html_entity.
  destruct (N.eqb_spec x 38); [done|].
  destruct (N.eqb_spec x 60); [done|].
  destruct (N.eqb_spec x 62); [done|].
  rewrite !contains_char_cons, !orb_false_r.
  split; by apply N.eqb_neq.
Qed.

(** X6. The result of [escape_html] holds no ["<"] and no [">"],
    whatever the input. *)
Theorem escape_html_no_angle_brackets (s : list N) :
  contains (str "<") (escape_html s) = false /\
  contains (str ">") (escape_html s) = false.
Proof.
  rewrite escape_html_chars.
  split; apply contains_char_flat_map; intros x; apply html_entity_no_angle.
Qed.

(** The characters that [escape_latex] escapes with a backslash. *)
Lemma latex_escaped_backslash (x c : N) (i : nat) :
  c ∈ [38; 37; 35; 95]%N ->
  latex_escaped x !! i = Some c ->
  exists j, i = S j /\ latex_escaped x !! j = Some 92%N.
Proof.
  intros Hc. unfold latex_escaped.
  assert (Hcs : c = 38%N \/ c = 37%N \/ c = 35%N \/ c = 95%N).
  { rewrite !elem_of_cons in Hc. rewrite elem_of_nil in Hc. tauto. }
  destruct (N.eqb_spec x 38) as [-> | H1];
    [|destruct (N.eqb_spec x 37) as [-> | H2];
      [|destruct (N.eqb_spec x 35) as [-> | H3];
        [|destruct (N.eqb_spec x 95) as [-> | H4];
          [|destruct (N.eqb_spec x 126) as [-> | H5]]]]].
  1-4: (destruct i as [|[|i]]; cbn; intros H; simplify_eq;
        [destruct Hcs as [?|[?|[?|?]]]; done | by exists 0]).
  - intros H. exfalso. cbn in H.
    do 18 (destruct i as [|i];
           [cbn in H; simplify_eq; destruct Hcs as [?|[?|[?|?]]]; done|]).
    done.
  - destruct i as [|i]; cbn; intros H; simplify_eq.
    destruct Hcs as [?|[?|[?|?]]]; done.
Qed.

Lemma latex_escaped_no_tilde (x : N) :
  contains [126%N] (latex_escaped x) = false.
Proof.
  unfold latex_escaped.
  repeat (match goal with
          | |- context [(x =? ?n)%N] =>
              destruct (N.eqb_spec x n) as [-> | ?]; [done|]
          end).
  rewrite contains_char_cons, orb_false_r. by apply N.eqb_neq.
Qed.

(** X7. The result of [escape_latex] holds no ["~"], and each of its
    ["&"], ["%"], ["#"] and ["_"] comes right after a backslash. *)
Theorem escape_latex_specials_escaped (s : list N) :
  contains (str "~") (escape_latex s) = false /\
  forall (i : nat) (c : N),
    c ∈ [38; 37; 35; 95]%N ->
    escape_latex s !! i = Some c ->
    exists j, i = S j /\ escape_latex s !! j = Some 92%N.
Proof.
  rewrite escape_latex_chars. split.
  - apply contains_char_flat_map, latex_escaped_no_tilde.
  - induction s as [|x s IH]; intros i c Hc Hi; [done|].
    cbn [flat_map] in *.
    destruct (decide (i < length (latex_escaped x))) as [Hlt | Hge].
    + rewrite lookup_app_l in Hi by done.
      destruct (latex_escaped_backslash x c i Hc Hi) as (j & -> & Hj).
      exists j. split; [done|]. rewrite lookup_app_l by lia. done.
    + rewrite lookup_app_r in Hi by lia.
      destruct (IH _ c Hc Hi) as (j & Hij & Hj).
      exists (length (latex_escaped x) + j). split; [lia|].
      rewrite lookup_app_r by lia.
      by replace (length (latex_escaped x) + j - length (latex_escaped x))
        with j by lia.
Qed.

(** ** Marker splice *)

(** X8. A splice keeps a span in the text: after
    [replace_between_markers] on a text with a span from the start
    marker to the end marker, the result has such a span again, so the
    region can be found by the next run. *)
Theorem splice_keeps_a_span (t s e r : list N) :
  span_in s e t = true ->
  span_in s e (replace_between_markers t s e r) = true.
Proof.
  intros Hspan. apply span_in_spec.
  destruct (decide (s ++ e = [])) as [Hnil | Hse].
  - apply app_eq_nil in Hnil as [-> ->]. by exists [], [], (replace_between_markers t [] [] r).
  - destruct (first_span s e t Hspan) as (b & k & Hb & Hk).
    rewrite (splice_first_span t s e r b k) by done.
    exists (take b t), ([nl] ++ r ++ [nl]). eexists.
    by rewrite <- !app_assoc.
Qed.

Lemma splice_keeps_a_span_witness :
  span_in (str "% PUBLICATIONS-START") (str "% PUBLICATIONS-END")
    (replace_between_markers
       (str "x % PUBLICATIONS-START old % PUBLICATIONS-END y % PUBLICATIONS-END")
       (str "% PUBLICATIONS-START") (str "% PUBLICATIONS-END")
       (str "\begin{itemize}"))
  = true.
Proof.
  apply (splice_keeps_a_span
           (str "x % PUBLICATIONS-START old % PUBLICATIONS-END y % PUBLICATIONS-END")).
  vm_compute. reflexivity.
Defined.



(** ** Record Fetcher *)

Lemma bind_Ok_l {A B} (a : A) (f : A -> result B) : Ok a ≫= f = f a.
Proof. reflexivity. Qed.

Lemma py_get_dict (d : list (list N * pyval)) (key : list N)
    (dflt v : pyval) :
  assoc key d = Some v -> py_get (PDict d) key dflt = Ok v.
Proof. intros H. unfold py_get. by rewrite H. Qed.

Lemma py_get_default (d : list (list N * pyval)) (key : list N)
    (dflt : pyval) :
  py_get (PDict d) key dflt = Ok (default dflt (assoc key d)).
Proof. reflexivity. Qed.

Lemma py_str_in_list (s : list N) (l : list pyval) :
  In (PStr s) l -> py_str_in s (PList l) = Ok true.
Proof.
  intros H. unfold py_str_in. f_equal. apply existsb_exists.
  exists (PStr s). split; [done|]. by apply bool_decide_eq_true.
Qed.

(** X10. A hit whose [document_type] list holds ["thesis"] gives no
    record and raises nothing, whatever its other fields are: the test
    comes before any other field is read. *)
Theorem thesis_hit_dropped (h m : list (list N * pyval)) (l : list pyval) :
  assoc (str "metadata") h = Some (PDict m) ->
  assoc (str "document_type") m = Some (PList l) ->
  In (PStr (str "thesis")) l ->
  process_hit (PDict h) = Ok None.
Proof.
  intros Hm Hd Hin. unfold process_hit.
  rewrite (py_get_dict h _ _ _ Hm), bind_Ok_l.
  rewrite (py_get_dict m _ _ _ Hd), bind_Ok_l.
  by rewrite (py_str_in_list _ _ Hin), bind_Ok_l.
Qed.

Lemma thesis_hit_dropped_witness :
  process_hit
    (PDict [(str "id", PInt 1);
            (str "metadata",
             PDict [(str "titles", PList []);
                    (str "document_type",
                     PList [PStr (str "article"); PStr (str "thesis")])])])
  = Ok None.
Proof.
  apply (thesis_hit_dropped _
           [(str "titles", PList []);
            (str "document_type",
             PList [PStr (str "article"); PStr (str "thesis")])]
           [PStr (str "article"); PStr (str "thesis")]).
  - vm_compute. reflexivity.
  - vm_compute. reflexivity.
  - simpl. auto.
Defined.

(** X11. A hit that is not a thesis and whose [titles] list is there
    but empty makes the loop raise [IndexError]: the default title is
    for a missing [titles] key only. *)
Theorem empty_titles_raise (h m : list (list N * pyval)) :
  assoc (str "metadata") h = Some (PDict m) ->
  py_str_in (str "thesis")
    (default (PList []) (assoc (str "document_type") m)) = Ok false ->
  assoc (str "titles") m = Some (PList []) ->
  process_hit (PDict h) = Raise IndexError.
Proof.
  intros Hm Hd Ht. unfold process_hit.
  rewrite (py_get_dict h _ _ _ Hm), bind_Ok_l.
  rewrite (py_get_default m (str "document_type")), bind_Ok_l, Hd, bind_Ok_l.
  by rewrite (py_get_dict m _ _ _ Ht), bind_Ok_l.
Qed.

Lemma empty_titles_raise_witness :
  process_hit
    (PDict [(str "metadata",
             PDict [(str "titles", PList []);
                    (str "earliest_date", PStr (str "2020-01-01"))])])
  = Raise IndexError.
Proof.
  apply (empty_titles_raise _
           [(str "titles", PList []);
            (str "earliest_date", PStr (str "2020-01-01"))]);
    vm_compute; reflexivity.
Defined.

Lemma fetch_papers_hits (data : pyval) :
  fetch_papers data = (hits ← response_hits data; process_hits hits []).
Proof.
  unfold fetch_papers, response_hits.
  destruct (py_get data (str "hits") (PDict [])) as [h|];
    [rewrite !bind_Ok_l | reflexivity].
  destruct (py_get h (str "hits") (PList [])) as [hs|];
    [rewrite !bind_Ok_l | reflexivity].
  reflexivity.
Qed.

Lemma process_hits_all_ok (hits : list pyval) (rs : list (option paper))
    (acc : list paper) :
  Forall2 (fun hit r => process_hit hit = Ok r) hits rs ->
  process_hits hits acc = Ok (acc ++ omap id rs).
Proof.
  intros H. revert acc. induction H as [|hit r hits rs Hr _ IH]; intros acc.
  - simpl. by rewrite app_nil_r.
  - cbn [process_hits]. rewrite Hr. cbn [mbind result_bind].
    destruct r as [p|]; rewrite IH; [|done].
    cbn. by rewrite <- app_assoc.
Qed.

(** X12. When the loop body succeeds on every hit of the response,
    [fetch_papers] returns the records of the hits that are not skipped,
    in the order of the hits. *)
Theorem fetch_papers_in_order (data : pyval) (hits : list pyval)
    (rs : list (option paper)) :
  response_hits data = Ok hits ->
  Forall2 (fun hit r => process_hit hit = Ok r) hits rs ->
  fetch_papers data = Ok (omap id rs).
Proof.
  intros Hh Hrs. rewrite fetch_papers_hits, Hh. cbn [mbind result_bind].
  by rewrite (process_hits_all_ok hits rs []).
Qed.

Lemma fetch_papers_in_order_witness :
  let hit (ttl : string) (kind : string) :=
    PDict [(str "metadata",
            PDict [(str "titles", PList [PDict [(str "title", PStr (str ttl))]]);
                   (str "document_type", PList [PStr (str kind)])])] in
  let record (ttl : string) :=
    Paper (PStr (str ttl)) (PList []) PNone PNone (PStr []) PNone PNone in
  fetch_papers
    (PDict [(str "hits",
             PDict [(str "hits",
                     PList [hit "One" "article"; hit "Two" "thesis";
                            hit "Three" "article"])])])
  = Ok (omap id [Some (record "One"); None; Some (record "Three")]).
Proof.
  intros hit record.
  apply (fetch_papers_in_order _
           [hit "One" "article"; hit "Two" "thesis"; hit "Three" "article"]).
  - vm_compute. reflexivity.
  - repeat constructor.
Defined.

Lemma process_hits_raise (before after : list pyval) (bad : pyval)
    (e : exn) (acc : list paper) :
  Forall (fun hit => exists r, process_hit hit = Ok r) before ->
  process_hit bad = Raise e ->
  process_hits (before ++ bad :: after) acc = Raise e.
Proof.
  intros H Hbad. revert acc.
  induction H as [|hit before [r Hr] _ IH]; intros acc.
  - cbn [app process_hits]. by rewrite Hbad.
  - cbn [app process_hits]. rewrite Hr. cbn [mbind result_bind].
    destruct r; apply IH.
Qed.

(** X13. One hit on which the loop body raises makes [fetch_papers]
    raise the same exception: the records of the hits before it are
    lost and the hits after it are not looked at. *)
Theorem fetch_papers_first_failure (data : pyval)
    (before after : list pyval) (bad : pyval) (e : exn) :
  response_hits data = Ok (before ++ bad :: after) ->
  Forall (fun hit => exists r, process_hit hit = Ok r) before ->
  process_hit bad = Raise e ->
  fetch_papers data = Raise e.
Proof.
  intros Hh Hbefore Hbad. rewrite fetch_papers_hits, Hh.
  cbn [mbind result_bind]. by apply process_hits_raise.
Qed.

Lemma fetch_papers_first_failure_witness :
  let good :=
    PDict [(str "metadata",
            PDict [(str "titles", PList [PDict [(str "title", PStr (str "One"))]])])] in
  fetch_papers
    (PDict [(str "hits",
             PDict [(str "hits", PList [good; PStr (str "oops"); good])])])
  = Raise AttributeError.
Proof.
  intros good.
  apply (fetch_papers_first_failure _ [good] [good] (PStr (str "oops"))).
  - vm_compute. reflexivity.
  - constructor; [|constructor]. eexists. vm_compute. reflexivity.
  - vm_compute. reflexivity.
Defined.

(** ** Markup Renderers *)

Lemma author_entry_ok (a : pyval) :
  entry_ok a = true -> exists e, author_entry a = Ok e.
Proof.
  destruct a as [| | | | | |d]; try done. unfold entry_ok, author_entry.
  rewrite py_get_default, bind_Ok_l.
  destruct (assoc (str "full_name") d) as [v|]; cbn [default from_option id].
  - destruct v; try done. eauto.
  - eauto.
Qed.

Lemma author_entries_ok (l : list pyval) :
  forallb entry_ok l = true -> exists es, author_entries (PList l) = Ok es.
Proof.
  unfold author_entries. cbn [py_iter]. rewrite bind_Ok_l.
  induction l as [|a l IH]; intros H; [by exists []|].
  cbn [forallb] in H. apply andb_true_iff in H as [Ha Hl].
  destruct (author_entry_ok a Ha) as [e He].
  destruct (IH Hl) as [es Hes].
  exists (e :: es). cbn [author_entries_of]. by rewrite He, bind_Ok_l, Hes.
Qed.

Lemma renderable_parts (p : paper) :
  renderable p = true ->
  (exists s, title p = PStr s) /\
  (exists es, author_entries (authors p) = Ok es) /\
  (truthy (journal p) = true -> exists j, journal p = PStr j).
Proof.
  unfold renderable. rewrite !andb_true_iff, orb_true_iff.
  intros [[Ht Ha] Hj]. split_and!.
  - destruct (title p); try done. eauto.
  - destruct (authors p); try done. by apply author_entries_ok.
  - intros Htr. destruct Hj as [Hj | Hj].
    + destruct (journal p); try done. eauto.
    + by rewrite Htr in Hj.
Qed.

Section RenderFacts.
Variable py_str : pyval -> list N.

(** The url of a link is never empty: the test [if url] of
    [generate_html] asks whether there is a link. *)
Lemma paper_link_url_nonempty (p : paper) (url txt : list N) :
  paper_link py_str p = Some (url, txt) -> url <> [].
Proof.
  unfold paper_link. intros H.
  repeat (match type of H with
          | (if ?b then _ else _) = _ => destruct b
          end); by simplify_eq.
Qed.

(** The lines a record appends do not depend on the lines before. *)
Lemma html_card_acc (lines : list (list N)) (p : paper) :
  html_card py_str lines p =
  (card ← html_card py_str [] p; Ok (lines ++ card)).
Proof.
  unfold html_card.
  destruct (py_escape_html (title p)) as [t|]; [|done]. rewrite !bind_Ok_l.
  destruct (author_entries (authors p)) as [es|]; [|done]. rewrite !bind_Ok_l.
  destruct (paper_link py_str p) as [[url txt]|];
    cbn [app]; by rewrite <- !app_assoc.
Qed.

Lemma html_card_renderable (p : paper) :
  renderable p = true ->
  exists card, html_card py_str [] p = Ok card /\
               length card = match paper_link py_str p with
                             | Some _ => 5
                             | None => 4
                             end.
Proof.
  intros H. destruct (renderable_parts p H) as ([s Hs] & [es Hes] & _).
  unfold html_card. rewrite Hs, Hes. cbn [py_escape_html].
  rewrite !bind_Ok_l.
  destruct (paper_link py_str p) as [[url txt]|]; eexists; split; done.
Qed.



Lemma latex_item_renderable (p : paper) :
  renderable p = true ->
  exists item, latex_item py_str p = Ok item /\
               starts_with (str "\item ") item = true.
Proof.
  intros H. destruct (renderable_parts p H) as ([s Hs] & [es Hes] & Hj).
  unfold latex_item. rewrite Hs, Hes. cbn [py_escape_latex].
  rewrite !bind_Ok_l.
  destruct (truthy (journal p)) eqn:Htr.
  - destruct (Hj eq_refl) as [j ->]. cbn [py_escape_latex].
    rewrite bind_Ok_l. eexists. split; [done|].
    destruct (paper_link py_str p) as [[url txt]|]; done.
  - destruct (truthy (year p)); eexists; (split; [done|]);
      destruct (paper_link py_str p) as [[url txt]|]; done.
Qed.

Lemma latex_items_acc (papers : list paper) (items lines : list (list N)) :
  Forall2 (fun p i => latex_item py_str p = Ok i) papers items ->
  latex_items py_str papers lines = Ok (lines ++ items).
Proof.
  intros H. revert lines. induction H as [|p i papers items Hi _ IH];
    intros lines.
  - simpl. by rewrite app_nil_r.
  - cbn [latex_items]. rewrite Hi, bind_Ok_l, IH.
    by rewrite <- app_assoc.
Qed.

(** X15. [generate_latex] raises nothing on records with a string
    title, a list of author dicts whose names are strings, and a journal
    that is a string or false in a condition; its result is
    [\begin{itemize}], one item per record in the order of the records,
    each starting with [\item], and [\end{itemize}], joined by
    newlines. *)
Theorem generate_latex_renderable (papers : list paper) :
  forallb renderable papers = true ->
  exists items,
    Forall2 (fun p i => latex_item py_str p = Ok i /\
                        starts_with (str "\item ") i = true)
            papers items /\
    generate_latex py_str papers =
      Ok (join [nl]
            ([str "\begin{itemize}"] ++ items ++ [str "\end{itemize}"])).
Proof.
  intros H.
  assert (exists items,
            Forall2 (fun p i => latex_item py_str p = Ok i /\
                       starts_with (str "\item ") i = true)
                    papers items) as [items Hitems].
  { induction papers as [|p papers IH]; [by exists []|].
    cbn [forallb] in H. apply andb_true_iff in H as [Hp Hps].
    destruct (latex_item_renderable p Hp) as (i & Hi & Hst).
    destruct (IH Hps) as [items Hitems].
    exists (i :: items). by constructor. }
  exists items. split; [done|]. unfold generate_latex.
  rewrite (latex_items_acc papers items).
  - rewrite bind_Ok_l. by rewrite <- !app_assoc.
  - eapply Forall2_impl; [exact Hitems|]. by intros p i [Hi _].
Qed.

Lemma html_cards_raise (before after : list paper) (p : paper) (e : exn)
    (lines : list (list N)) :
  forallb renderable before = true ->
  html_card py_str [] p = Raise e ->
  html_cards py_str (before ++ p :: after) lines = Raise e.
Proof.
  revert lines. induction before as [|q before IH]; intros lines H Hp.
  - cbn [app html_cards]. by rewrite html_card_acc, Hp.
  - cbn [forallb] in H. apply andb_true_iff in H as [Hq Hb].
    destruct (html_card_renderable q Hq) as (c & Hc & _).
    cbn [app html_cards]. rewrite html_card_acc, Hc, !bind_Ok_l.
    by apply IH.
Qed.

Lemma latex_items_raise (before after : list paper) (p : paper) (e : exn)
    (lines : list (list N)) :
  forallb renderable before = true ->
  latex_item py_str p = Raise e ->
  latex_items py_str (before ++ p :: after) lines = Raise e.
Proof.
  revert lines. induction before as [|q before IH]; intros lines H Hp.
  - cbn [app latex_items]. by rewrite Hp.
  - cbn [forallb] in H. apply andb_true_iff in H as [Hq Hb].
    destruct (latex_item_renderable q Hq) as (i & Hi & _).
    cbn [app latex_items]. rewrite Hi, bind_Ok_l. by apply IH.
Qed.

(** X16. A record whose title is not a string (a JSON [null] title
    passes [fetch_papers]) makes both renderers raise
    [AttributeError], whatever the records after it are. *)
Theorem renderers_need_string_title (before after : list paper) (p : paper) :
  forallb renderable before = true ->
  is_str (title p) = false ->
  generate_html py_str (before ++ p :: after) = Raise AttributeError /\
  generate_latex py_str (before ++ p :: after) = Raise AttributeError.
Proof.
  intros Hb Ht.
  assert (py_escape_html (title p) = Raise AttributeError) as Hh
    by (by destruct (title p)).
  assert (py_escape_latex (title p) = Raise AttributeError) as Hl
    by (by destruct (title p)).
  split.
  - unfold generate_html. rewrite (html_cards_raise before after p AttributeError);
      [done | done |].
    unfold html_card. by rewrite Hh.
  - unfold generate_latex.
    rewrite (latex_items_raise before after p AttributeError);
      [done | done |].
    unfold latex_item. by rewrite Hl.
Qed.

End RenderFacts.


Lemma generate_latex_renderable_witness :
  let author (name : string) := PDict [(str "full_name", PStr (str name))] in
  let papers :=
    [ Paper (PStr (str "Up & down")) (PList [author "Berean, J."; author "Beta, Bob"])
        (PStr (str "2101.00001")) (PStr (str "JHEP")) (PStr (str "2021"))
        PNone PNone;
      Paper (PStr (str "Untitled")) (PList []) PNone PNone (PStr []) PNone PNone ] in
  exists items,
    Forall2 (fun p i => latex_item show_field p = Ok i /\
                        starts_with (str "\item ") i = true)
            papers items /\
    generate_latex show_field papers =
      Ok (join [nl]
            ([str "\begin{itemize}"] ++ items ++ [str "\end{itemize}"])).
Proof.
  intros author papers.
  apply (generate_latex_renderable show_field papers).
  vm_compute. reflexivity.
Defined.

Lemma renderers_need_string_title_witness :
  let good := Paper (PStr (str "One")) (PList []) PNone PNone (PStr []) PNone PNone in
  let bad := Paper PNone (PList []) PNone PNone (PStr []) PNone PNone in
  process_hit
    (PDict [(str "metadata",
             PDict [(str "titles", PList [PDict [(str "title", PNone)]])])])
  = Ok (Some bad) /\
  generate_html show_field ([good] ++ bad :: [good]) = Raise AttributeError /\
  generate_latex show_field ([good] ++ bad :: [good]) = Raise AttributeError.
Proof.
  intros good bad. split; [vm_compute; reflexivity|].
  apply (renderers_need_string_title show_field [good] [good] bad);
    vm_compute; reflexivity.
Defined.

(** ** Compiler Invoker and Orchestrator *)

Lemma prog_bind_run {A B} (m : prog A) (f : A -> prog B) (w : world) :
  (m ≫= f) w =
  match m w with
  | (w', Ok a) => f a w'
  | (w', Raise e) => (w', Raise e)
  end.
Proof. reflexivity. Qed.


Section ScriptFacts.
Variable py_str : pyval -> list N.
Variable run_pdflatex :
  gmap (list N) (list N) ->
  gmap (list N) (list N) * result (Z * list N).
Variables INDEX_HTML CV_TEX : list N.



(** X18. When no record is left after the fetch, [main] prints three
    lines and returns: no file is changed and the compiler is not run. *)
Theorem main_without_papers (data : pyval) (w : world) :
  fetch_papers data = Ok [] ->
  main py_str run_pdflatex INDEX_HTML CV_TEX data w =
  ({| files := files w;
      stdout := stdout w ++
        [str "Fetching publications from INSPIRE-HEP...";
         str "Found " ++ py_str (PInt 0) ++ str " papers (excluding theses).";
         str "No papers found. Aborting."] |}, Ok tt).
Proof.
  intros Hfetch. unfold main.
  rewrite prog_bind_run. cbn [print].
  rewrite prog_bind_run. unfold compute at 1. rewrite Hfetch.
  rewrite prog_bind_run. unfold print. cbn [files stdout length].
  change (Z.of_nat 0) with 0%Z. by rewrite <- !app_assoc.
Qed.


(** X20. An exception of the fetch or of a renderer leaves every file
    as it was: both renderings are made before the first file is
    opened. *)
Theorem main_raises_before_writing (data : pyval) (w : world) (e : exn) :
  fetch_papers data = Raise e \/
  (exists papers,
     fetch_papers data = Ok papers /\
     (generate_html py_str papers = Raise e \/
      (exists html, generate_html py_str papers = Ok html) /\
      generate_latex py_str papers = Raise e)) ->
  exists w',
    main py_str run_pdflatex INDEX_HTML CV_TEX data w = (w', Raise e) /\
    files w' = files w.
Proof.
  intros H. unfold main.
  rewrite prog_bind_run. cbn [print].
  rewrite prog_bind_run. unfold compute at 1.
  destruct H as [Hfetch | (papers & Hfetch & H)]; rewrite Hfetch.
  - eexists. split; done.
  - rewrite prog_bind_run. cbn [print].
    destruct papers as [|p papers].
    { destruct H as [H | [_ H]]; cbn in H; done. }
    rewrite prog_bind_run. unfold compute at 1.
    destruct H as [Hh | [[html Hh] Hl]]; rewrite Hh.
    + eexists. split; done.
    + rewrite prog_bind_run. unfold compute at 1. rewrite Hl.
      eexists. split; done.
Qed.

End ScriptFacts.


Lemma main_without_papers_witness :
  let thesis :=
    PDict [(str "metadata",
            PDict [(str "document_type", PList [PStr (str "thesis")])])] in
  let data :=
    PDict [(str "hits", PDict [(str "hits", PList [thesis; thesis])])] in
  let run (f : gmap (list N) (list N)) :=
    (f, Raise FileNotFoundError : result (Z * list N)) in
  let w := {| files := {[ str "index.html" := str "page" ]}; stdout := [] |} in
  main show_field run (str "index.html") (str "cv/cv.tex") data w =
  ({| files := files w;
      stdout := stdout w ++
        [str "Fetching publications from INSPIRE-HEP...";
         str "Found " ++ show_field (PInt 0) ++
         str " papers (excluding theses).";
         str "No papers found. Aborting."] |}, Ok tt).
Proof.
  intros thesis data run w.
  apply (main_without_papers show_field run (str "index.html")
           (str "cv/cv.tex") data w).
  vm_compute. reflexivity.
Defined.


Lemma main_raises_before_writing_witness :
  let data :=
    PDict [(str "hits",
            PDict [(str "hits",
                    PList [PDict [(str "metadata",
                                   PDict [(str "titles",
                                           PList [PDict [(str "title", PNone)]])])]])])] in
  let run (f : gmap (list N) (list N)) :=
    (f, Ok (0%Z, []) : result (Z * list N)) in
  let w := {| files := {[ str "index.html" := str "page" ]}; stdout := [] |} in
  exists w',
    main show_field run (str "index.html") (str "cv/cv.tex") data w
      = (w', Raise AttributeError) /\
    files w' = files w.
Proof.
  intros data run w.
  apply (main_raises_before_writing show_field run (str "index.html")
           (str "cv/cv.tex") data w AttributeError).
  right. eexists. split; [vm_compute; reflexivity|]. left.
  vm_compute. reflexivity.
Defined.
